(** * Incident dashboard: the filter and sort pipeline, the reporter
      block and the scale of the trend chart

    A shallow embedding of the pure parts of three React components.

    - The incidents list (incidents management page): the expression
      [filteredAndSortedIncidents] and the "Reporter Information" block
      of [IncidentDetailsModal].
    - The dashboard table ([IncidentsTable.tsx]): its own
      [filteredAndSortedIncidents], with three search attributes and no
      county filter.
    - The trend chart ([TrendsChart.tsx]): [maxValue] and the three bar
      heights of a point.

    Conventions of the model.
    - A JavaScript string is a [string] of Latin-1 code units.  On those,
      [toLowerCase] acts unit by unit and [<] is the order of
      [String.ltb].
    - A JavaScript number is an integer ([Z]): epoch milliseconds and
      counts, on which the sums of the program are exact.  The one
      division of the program (the bar heights) is taken in [Q]; a zero
      divisor is kept apart as "no result".
    - What the code reads through [a[sortField]] is a [value]; its
      run-time type decides [typeof] and [<].
    - An exception is the result [Throw]; the modelled code can only
      raise a [TypeError].
    - [Array.prototype.sort] is a stable insertion sort.  Where the
      comparator is a consistent order, every stable sort has the same
      outcome ([JsArrayFacts.stableSortOf_unique]). *)

From Stdlib Require Import ZArith List Bool Lia.
From Stdlib Require Import Strings.Ascii Strings.String.
From Stdlib Require Import Sorting.Permutation Sorting.Sorted.
From Stdlib Require Import Structures.OrderedTypeEx.
From Stdlib Require Import QArith Qround.
Import ListNotations.

Local Open Scope string_scope.
Local Open Scope list_scope.
Local Open Scope Z_scope.

(** ** Results of code that may throw *)

Inductive exn : Type :=
| TypeError.

Inductive result (A : Type) : Type :=
| Ok (a : A)
| Throw (e : exn).

Arguments Ok {A} a.
Arguments Throw {A} e.

Definition bind {A B : Type} (r : result A) (k : A -> result B) : result B :=
  match r with
  | Ok a => k a
  | Throw e => Throw e
  end.

Notation "x <- r ;; k" := (bind r (fun x => k))
  (at level 61, r at next level, right associativity).

(** ** JavaScript strings *)

Module JsString.

(** [String.prototype.toLowerCase] on one Latin-1 code unit: A-Z and
    the accented capitals U+00C0-U+00DE (the multiplication sign U+00D7
    apart) move up by 32, everything else stays. *)
Definition lowerChar (c : ascii) : ascii :=
  let n := N_of_ascii c in
  if ((65 <=? n) && (n <=? 90)
      || (192 <=? n) && (n <=? 222) && negb (n =? 215))%N
  then ascii_of_N (n + 32)
  else c.

Fixpoint toLowerCase (s : string) : string :=
  match s with
  | EmptyString => EmptyString
  | String c s' => String (lowerChar c) (toLowerCase s')
  end.

(** [s.includes(t)]: [t] occurs in [s] at some position. *)
Fixpoint includes (s t : string) : bool :=
  String.prefix t s ||
  match s with
  | EmptyString => false
  | String _ s' => includes s' t
  end.

(** [Array.prototype.join(",")] on an array of strings. *)
Definition join (l : list string) : string := String.concat "," l.

(** What "contains as a substring" means. *)
Definition substringOf (t s : string) : Prop :=
  exists u v, s = (u ++ t ++ v)%string.

(** Case-insensitive containment: some stretch of the text is the term
    up to letter case. *)
Definition containsIgnoringCase (text term : string) : Prop :=
  exists u w v, text = (u ++ w ++ v)%string
                /\ toLowerCase w = toLowerCase term.

(** [s.replace(/_/g, " ")]: every underscore becomes a space. *)
Fixpoint replaceUnderscores (s : string) : string :=
  match s with
  | EmptyString => EmptyString
  | String c s' =>
      String (if (c =? "_")%char then " "%char else c) (replaceUnderscores s')
  end.

(** The class [\w] of a regular expression without the unicode flag:
    A-Z, a-z, 0-9 and the underscore. *)
Definition isWordChar (c : ascii) : bool :=
  let n := N_of_ascii c in
  ((65 <=? n) && (n <=? 90) || (97 <=? n) && (n <=? 122)
   || (48 <=? n) && (n <=? 57) || (n =? 95))%N.

(** [l.toUpperCase()] on one code unit of the class [\w]: a-z move down
    by 32, the others stay. *)
Definition upperWordChar (c : ascii) : ascii :=
  let n := N_of_ascii c in
  if ((97 <=? n) && (n <=? 122))%N then ascii_of_N (n - 32) else c.

(** [s.replace(/\b\w/g, l => l.toUpperCase())]: a unit of the class
    [\w] that does not follow another one starts a word and is put in
    upper case.  [inWord] tells whether the unit before is of the
    class. *)
Fixpoint capitalizeFrom (inWord : bool) (s : string) : string :=
  match s with
  | EmptyString => EmptyString
  | String c s' =>
      String (if isWordChar c && negb inWord then upperWordChar c else c)
             (capitalizeFrom (isWordChar c) s')
  end.

Definition capitalizeWords (s : string) : string := capitalizeFrom false s.

End JsString.

(** ** JavaScript values read from a record *)

Inductive value : Type :=
| VUndefined
| VNumber (n : Z)
| VString (s : string)
| VBoolean (b : bool)
| VObject
| VArray (l : list string).

Module JsValue.

(** ToPrimitive: a plain object prints as "[object Object]", an array
    of strings as its elements joined by commas. *)
Definition toPrimitive (v : value) : value :=
  match v with
  | VObject => VString "[object Object]"
  | VArray l => VString (JsString.join l)
  | _ => v
  end.

(** ToNumber on the non-string primitives; [None] is NaN. *)
Definition toNumber (v : value) : option Z :=
  match v with
  | VNumber n => Some n
  | VBoolean b => Some (if b then 1 else 0)
  | _ => None
  end.

(** The operator [x < y].  Two strings compare by code units; otherwise
    both sides go through ToNumber and a NaN makes the answer false.
    A string against a number or a boolean would need ToNumber of the
    string: the comparator below reads both operands from the same
    attribute, so that pair does not arise there, and it is given the
    answer of a NaN. *)
Definition lessThan (x y : value) : bool :=
  match toPrimitive x, toPrimitive y with
  | VString s, VString t => String.ltb s t
  | px, py =>
      match toNumber px, toNumber py with
      | Some n, Some m => n <? m
      | _, _ => false
      end
  end.

(** The operator [x > y]. *)
Definition greaterThan (x y : value) : bool := lessThan y x.

End JsValue.

(** ** JavaScript arrays: [sort] *)

Module JsArray.
Section Sort.

Context {A : Type}.
Variable comparefn : A -> A -> result Z.

(** [Array.prototype.sort(comparefn)] as a stable insertion sort: an
    element stays in front of the elements that follow it in the input
    unless the comparator puts one of them strictly first.  ECMAScript
    asks for a stable sort and leaves the sequence of comparator calls
    to the engine; an exception of the comparator ends the sort.

    The calls made here are one such sequence.  Where the comparator
    answers on every pair and is a consistent order (the keys are all
    numbers or all strings), the outcome is the one of every stable
    sort.  Where it is not (an optional attribute that some record
    lacks), which pairs are compared, and so whether the sort throws and
    in what order it leaves the records, is the engine's own: there only
    what holds of every rearrangement of the input carries over. *)
Fixpoint insert (x : A) (sorted : list A) : result (list A) :=
  match sorted with
  | [] => Ok [x]
  | y :: rest =>
      order <- comparefn x y ;;
      if order <=? 0 then Ok (x :: y :: rest)
      else (rest' <- insert x rest ;; Ok (y :: rest'))
  end.

Fixpoint sort (l : list A) : result (list A) :=
  match l with
  | [] => Ok []
  | x :: rest => sorted <- sort rest ;; insert x sorted
  end.

End Sort.
End JsArray.

(** ** The incident record *)

Inductive Priority : Type := low | medium | high | critical.

Inductive Status : Type :=
  reported | verified | investigating | resolved | closed.

Definition priorityString (p : Priority) : string :=
  match p with
  | low => "low"
  | medium => "medium"
  | high => "high"
  | critical => "critical"
  end.

Definition statusString (s : Status) : string :=
  match s with
  | reported => "reported"
  | verified => "verified"
  | investigating => "investigating"
  | resolved => "resolved"
  | closed => "closed"
  end.

Record Casualties : Type := {
  deaths : Z;
  injuries : Z;
  missing : Z
}.

Record LivestockStolen : Type := {
  cattle : Z;
  goats : Z;
  sheep : Z;
  camels : Z;
  other : Z
}.

(** [interface Incident] of the incidents list; the interface of the
    dashboard table is the same without the optional attributes,
    [reportedDate], [isAnonymous] and [respondingAgencies]. *)
Record Incident : Type := {
  _id : string;
  _creationTime : Z;
  incidentType : string;
  county : string;
  subcounty : option string;
  location : string;
  incidentDate : Z;
  reportedDate : Z;
  priority : Priority;
  status : Status;
  description : string;
  casualties : Casualties;
  livestockStolen : LivestockStolen;
  isVerified : bool;
  reporterName : option string;
  reporterPhone : option string;
  isAnonymous : bool;
  respondingAgencies : list string;
  actionsTaken : option string;
  responseTime : option Z
}.

Definition optional {A : Type} (inj : A -> value) (o : option A) : value :=
  match o with
  | Some a => inj a
  | None => VUndefined
  end.

(** The record as the object the code indexes: its own properties by
    name.  The two nested records are plain objects; an optional
    attribute that is absent reads as [undefined]. *)
Definition properties (i : Incident) : list (string * value) :=
  [ ("_id", VString (_id i));
    ("_creationTime", VNumber (_creationTime i));
    ("incidentType", VString (incidentType i));
    ("county", VString (county i));
    ("subcounty", optional VString (subcounty i));
    ("location", VString (location i));
    ("incidentDate", VNumber (incidentDate i));
    ("reportedDate", VNumber (reportedDate i));
    ("priority", VString (priorityString (priority i)));
    ("status", VString (statusString (status i)));
    ("description", VString (description i));
    ("casualties", VObject);
    ("livestockStolen", VObject);
    ("isVerified", VBoolean (isVerified i));
    ("reporterName", optional VString (reporterName i));
    ("reporterPhone", optional VString (reporterPhone i));
    ("isAnonymous", VBoolean (isAnonymous i));
    ("respondingAgencies", VArray (respondingAgencies i));
    ("actionsTaken", optional VString (actionsTaken i));
    ("responseTime", optional VNumber (responseTime i)) ].

(** The names of [keyof Incident]. *)
Definition incidentKeys : list string :=
  [ "_id"; "_creationTime"; "incidentType"; "county"; "subcounty";
    "location"; "incidentDate"; "reportedDate"; "priority"; "status";
    "description"; "casualties"; "livestockStolen"; "isVerified";
    "reporterName"; "reporterPhone"; "isAnonymous"; "respondingAgencies";
    "actionsTaken"; "responseTime" ].

Fixpoint lookup (key : string) (props : list (string * value)) : value :=
  match props with
  | [] => VUndefined
  | (name, v) :: rest => if (name =? key)%string then v else lookup key rest
  end.

(** The property read [incident[key]]; a name the object does not carry
    reads as [undefined].  Own properties only: the names that every
    object inherits ([toString] and the like) are left out. *)
Definition get (incident : Incident) (key : string) : value :=
  lookup key (properties incident).

(** The operator [typeof]. *)
Definition typeof (v : value) : string :=
  match v with
  | VUndefined => "undefined"
  | VNumber _ => "number"
  | VString _ => "string"
  | VBoolean _ => "boolean"
  | VObject | VArray _ => "object"
  end.

(** The method call [v.toLowerCase()]: only a string has the method. *)
Definition callToLowerCase (v : value) : result value :=
  match v with
  | VString s => Ok (VString (JsString.toLowerCase s))
  | _ => Throw TypeError
  end.

Inductive SortDirection : Type := asc | desc.

(** The two totals, as the rows of the dashboard table compute them. *)
Definition totalCasualties (a : Incident) : Z :=
  deaths (casualties a) + injuries (casualties a) + missing (casualties a).

Definition totalLivestock (a : Incident) : Z :=
  cattle (livestockStolen a) + goats (livestockStolen a)
  + sheep (livestockStolen a) + camels (livestockStolen a)
  + other (livestockStolen a).

(** The comparator handed to [sort], the same text in both components;
    [sortField] and [sortDirection] are the component's state. *)
Section Comparator.

Variable sortField : string.
Variable sortDirection : SortDirection.

Definition compareFn (a b : Incident) : result Z :=
  let '(aValue, bValue) :=
    if (sortField =? "totalCasualties")%string then
      (VNumber (deaths (casualties a) + injuries (casualties a)
                + missing (casualties a)),
       VNumber (deaths (casualties b) + injuries (casualties b)
                + missing (casualties b)))
    else if (sortField =? "totalLivestock")%string then
      (VNumber (cattle (livestockStolen a) + goats (livestockStolen a)
                + sheep (livestockStolen a) + camels (livestockStolen a)
                + other (livestockStolen a)),
       VNumber (cattle (livestockStolen b) + goats (livestockStolen b)
                + sheep (livestockStolen b) + camels (livestockStolen b)
                + other (livestockStolen b)))
    else (get a sortField, get b sortField) in
  lowered <-
    (if (typeof aValue =? "string")%string then
       aLower <- callToLowerCase aValue ;;
       bLower <- callToLowerCase bValue ;;
       Ok (aLower, bLower)
     else Ok (aValue, bValue)) ;;
  let '(aValue, bValue) := lowered in
  Ok (match sortDirection with
      | asc =>
          if JsValue.lessThan aValue bValue then -1
          else if JsValue.greaterThan aValue bValue then 1 else 0
      | desc =>
          if JsValue.greaterThan aValue bValue then -1
          else if JsValue.lessThan aValue bValue then 1 else 0
      end).

End Comparator.

(** [handleSort], the same text in both components: a click on the
    column that is already the sort field flips the direction, a click
    on another column selects it, descending.  The result is the next
    pair of states [sortField], [sortDirection]. *)
Definition handleSort (sortField : string) (sortDirection : SortDirection)
    (field : string) : string * SortDirection :=
  if (sortField =? field)%string then
    (sortField, match sortDirection with asc => desc | desc => asc end)
  else (field, desc).

(** The initial states of [sortField] and [sortDirection]. *)
Definition initialSort : string * SortDirection := ("incidentDate", desc).

(** [Math.round] and [Math.floor] on an exact quotient: the nearest
    integer, a half going up, and the integer below. *)
Module JsMath.

Definition round (x : Q) : Z := Qfloor (x + (1 # 2))%Q.

Definition floor (x : Q) : Z := Qfloor x.

End JsMath.

(** ** Helpers that both tables define, with the same text *)

(** [formatIncidentType]: underscores to spaces, then every word
    capitalized. *)
Definition formatIncidentType (type : string) : string :=
  JsString.capitalizeWords (JsString.replaceUnderscores type).

(** [getPriorityColor]: the classes of the priority badge. *)
Definition getPriorityColor (priority : string) : string :=
  if (priority =? "critical")%string then "bg-red-100 text-red-800"
  else if (priority =? "high")%string then "bg-orange-100 text-orange-800"
  else if (priority =? "medium")%string then "bg-yellow-100 text-yellow-800"
  else if (priority =? "low")%string then "bg-green-100 text-green-800"
  else "bg-gray-100 text-gray-800".

(** [getStatusColor]: the classes of the status badge. *)
Definition getStatusColor (status : string) : string :=
  if (status =? "reported")%string then "bg-blue-100 text-blue-800"
  else if (status =? "verified")%string then "bg-purple-100 text-purple-800"
  else if (status =? "investigating")%string
       then "bg-yellow-100 text-yellow-800"
  else if (status =? "resolved")%string then "bg-green-100 text-green-800"
  else if (status =? "closed")%string then "bg-gray-100 text-gray-800"
  else "bg-gray-100 text-gray-800".

(** [SortIcon]: the mark in a column header, a double arrow on the
    columns that are not the sort field, an arrow up or down on the one
    that is. *)
Inductive icon : Type := BothWays | ArrowUp | ArrowDown.

Definition SortIcon (sortField : string) (sortDirection : SortDirection)
    (field : string) : icon :=
  if negb (sortField =? field)%string then BothWays
  else match sortDirection with
       | asc => ArrowUp
       | desc => ArrowDown
       end.

(** ** The incidents list (incidents management page) *)

Module IncidentsList.
Section Component.

Variables searchTerm statusFilter priorityFilter countyFilter : string.

Definition matchesSearch (incident : Incident) : bool :=
  (searchTerm =? "")%string
  || JsString.includes (JsString.toLowerCase (description incident))
                       (JsString.toLowerCase searchTerm)
  || JsString.includes (JsString.toLowerCase (location incident))
                       (JsString.toLowerCase searchTerm)
  || JsString.includes (JsString.toLowerCase (county incident))
                       (JsString.toLowerCase searchTerm)
  || JsString.includes (JsString.toLowerCase (_id incident))
                       (JsString.toLowerCase searchTerm).

Definition matchesStatus (incident : Incident) : bool :=
  (statusFilter =? "")%string
  || (statusString (status incident) =? statusFilter)%string.

Definition matchesPriority (incident : Incident) : bool :=
  (priorityFilter =? "")%string
  || (priorityString (priority incident) =? priorityFilter)%string.

Definition matchesCounty (incident : Incident) : bool :=
  (countyFilter =? "")%string
  || (county incident =? countyFilter)%string.

(** The callback of [filter]. *)
Definition passes (incident : Incident) : bool :=
  matchesSearch incident && matchesStatus incident
  && matchesPriority incident && matchesCounty incident.

Definition filteredAndSortedIncidents
    (sortField : string) (sortDirection : SortDirection)
    (incidents : list Incident) : result (list Incident) :=
  JsArray.sort (compareFn sortField sortDirection)
               (List.filter passes incidents).

End Component.

(** The column headers that call [handleSort]. *)
Definition columns : list string :=
  [ "_id"; "incidentDate"; "incidentType"; "location"; "priority";
    "status" ].

(** The "Reporter Information" block of [IncidentDetailsModal]. *)
Inductive element : Type :=
| AnonymousReport
| LabelledText (label text : string)
| VerifiedMark (isVerified : bool).

(** [x || "N/A"]: an absent or empty string is falsy. *)
Definition orNA (o : option string) : string :=
  match o with
  | Some EmptyString | None => "N/A"
  | Some s => s
  end.

Definition reporterInformation (incident : Incident) : list element :=
  (if isAnonymous incident then [AnonymousReport]
   else [ LabelledText "Name:" (orNA (reporterName incident));
          LabelledText "Phone:" (orNA (reporterPhone incident)) ])
  ++ [VerifiedMark (isVerified incident)].

(** The "Assigned To" cell of a row: the first two agencies and, past
    two, the number of the others; "Unassigned" without agencies. *)
Inductive assignedCell : Type :=
| Unassigned
| Assigned (badges : list string) (more : option Z).

Definition assignedTo (incident : Incident) : assignedCell :=
  let agencies := respondingAgencies incident in
  if 0 <? Z.of_nat (List.length agencies) then
    Assigned (firstn 2 agencies)
             (if 2 <? Z.of_nat (List.length agencies)
              then Some (Z.of_nat (List.length agencies) - 2)
              else None)
  else Unassigned.

(** The "Response Information" block of [IncidentDetailsModal].  A JSX
    child that is [false], [undefined] or the empty string leaves nothing
    on the page; a child that is the number 0 leaves the text 0. *)
Inductive responseItem : Type :=
| BareZero
| RespondingAgencies (agencies : list string)
| ResponseTime (hours : Z)
| ActionsTaken (text : string).

Inductive responseBlock : Type :=
| NoResponseBlock (left : list responseItem)
| ResponseBlock (children : list responseItem).

(** Truthiness of an optional string and of an optional number. *)
Definition truthyString (o : option string) : bool :=
  match o with
  | Some EmptyString | None => false
  | Some _ => true
  end.

Definition truthyNumber (o : option Z) : bool :=
  match o with
  | Some n => negb (n =? 0)
  | None => false
  end.

(** [x && shown] for an optional number [x], as a JSX child: nothing for
    [undefined], the text 0 for 0, else what [shown] gives. *)
Definition numberAnd (o : option Z) (shown : Z -> responseItem)
    : list responseItem :=
  match o with
  | None => []
  | Some n => if n =? 0 then [BareZero] else [shown n]
  end.

(** [x && shown] for an optional string [x]: nothing for [undefined] and
    for the empty string. *)
Definition stringAnd (o : option string) (shown : string -> responseItem)
    : list responseItem :=
  match o with
  | Some (String c rest) => [shown (String c rest)]
  | _ => []
  end.

(** The block is guarded by [agencies.length > 0 || actionsTaken ||
    responseTime]; where all three are falsy the value of the guard is
    the response time, which is left on the page in place of the
    block. *)
Definition responseInformation (incident : Incident) : responseBlock :=
  if (0 <? Z.of_nat (List.length (respondingAgencies incident)))
     || truthyString (actionsTaken incident)
     || truthyNumber (responseTime incident)
  then
    ResponseBlock
      ((if 0 <? Z.of_nat (List.length (respondingAgencies incident))
        then [RespondingAgencies (respondingAgencies incident)] else [])
       ++ numberAnd (responseTime incident)
            (fun n => ResponseTime
                        (JsMath.round
                           (inject_Z n / inject_Z (1000 * 60 * 60))%Q))
       ++ stringAnd (actionsTaken incident) ActionsTaken)
  else NoResponseBlock (numberAnd (responseTime incident) (fun _ => BareZero)).

(** The body of the table and the line under it: the note "No incidents
    found matching your criteria" for an empty result, else one row per
    record and "Showing n of m incidents". *)
Inductive tableView : Type :=
| NoIncidentsFound
| Rows (rows : list Incident) (showing total : Z).

Definition tableBody (incidents filteredAndSortedIncidents : list Incident)
    : tableView :=
  if Z.of_nat (List.length filteredAndSortedIncidents) =? 0
  then NoIncidentsFound
  else Rows filteredAndSortedIncidents
            (Z.of_nat (List.length filteredAndSortedIncidents))
            (Z.of_nat (List.length incidents)).

End IncidentsList.

(** ** The dashboard table *)

Module IncidentsTable.
Section Component.

Variables searchTerm statusFilter priorityFilter : string.

Definition matchesSearch (incident : Incident) : bool :=
  (searchTerm =? "")%string
  || JsString.includes (JsString.toLowerCase (description incident))
                       (JsString.toLowerCase searchTerm)
  || JsString.includes (JsString.toLowerCase (location incident))
                       (JsString.toLowerCase searchTerm)
  || JsString.includes (JsString.toLowerCase (county incident))
                       (JsString.toLowerCase searchTerm).

Definition matchesStatus (incident : Incident) : bool :=
  (statusFilter =? "")%string
  || (statusString (status incident) =? statusFilter)%string.

Definition matchesPriority (incident : Incident) : bool :=
  (priorityFilter =? "")%string
  || (priorityString (priority incident) =? priorityFilter)%string.

Definition passes (incident : Incident) : bool :=
  matchesSearch incident && matchesStatus incident
  && matchesPriority incident.

Definition filteredAndSortedIncidents
    (sortField : string) (sortDirection : SortDirection)
    (incidents : list Incident) : result (list Incident) :=
  JsArray.sort (compareFn sortField sortDirection)
               (List.filter passes incidents).

End Component.

(** The column headers that call [handleSort]. *)
Definition columns : list string :=
  [ "incidentDate"; "incidentType"; "location"; "priority"; "status";
    "totalCasualties" ].

(** The "Casualties" cell of a row: the total of casualties when above
    0, the total of livestock when above 0, "None" when both are 0. *)
Inductive casualtyItem : Type :=
| People (total : Z)
| Livestock (total : Z)
| NoneAtAll.

Definition casualtiesCell (incident : Incident) : list casualtyItem :=
  (if 0 <? totalCasualties incident
   then [People (totalCasualties incident)] else [])
  ++ (if 0 <? totalLivestock incident
      then [Livestock (totalLivestock incident)] else [])
  ++ (if (totalCasualties incident =? 0) && (totalLivestock incident =? 0)
      then [NoneAtAll] else []).

End IncidentsTable.

(** ** The trend chart *)

Module TrendsChart.

Record TrendPoint : Type := {
  date : string;
  incidents : Z;
  critical : Z;
  resolved : Z
}.

(** [Math.max(...xs)]; with no argument the answer is -Infinity, which
    is [None] here. *)
Definition mathMax (xs : list Z) : option Z :=
  fold_left
    (fun acc x => Some (match acc with None => x | Some m => Z.max m x end))
    xs None.

Definition maxValue (data : list TrendPoint) : option Z :=
  mathMax
    (map (fun d => Z.max (Z.max (incidents d) (critical d)) (resolved d))
         data).

Definition chartHeight : Z := 200.

(** The operator [x / y] on integers, exact; a zero divisor, which
    gives Infinity or NaN, is [None]. *)
Definition divide (x y : Z) : option Q :=
  if y =? 0 then None else Some (inject_Z x / inject_Z y)%Q.

(** [maxValue > 0 ? (v / maxValue) * (chartHeight - 32) : 0], the
    height of one bar; -Infinity is not above 0. *)
Definition barHeight (maxValue : option Z) (v : Z) : option Q :=
  match maxValue with
  | Some m =>
      if 0 <? m then
        match divide v m with
        | Some ratio => Some (ratio * inject_Z (chartHeight - 32))%Q
        | None => None
        end
      else Some 0%Q
  | None => Some 0%Q
  end.

Record Bars : Type := {
  incidentHeight : option Q;
  criticalHeight : option Q;
  resolvedHeight : option Q
}.

Inductive view : Type :=
| NoTrendData
| Chart (maxValue : option Z) (bars : list Bars).

(** The component: the early return on no data, then the scale and
    one group of three bars per point. *)
Definition TrendsChart (data : list TrendPoint) : view :=
  match data with
  | [] => NoTrendData
  | _ =>
      let maxValue := maxValue data in
      Chart maxValue
        (map (fun point =>
                {| incidentHeight := barHeight maxValue (incidents point);
                   criticalHeight := barHeight maxValue (critical point);
                   resolvedHeight := barHeight maxValue (resolved point) |})
             data)
  end.

(** The five labels of the vertical axis, top to bottom. *)
Definition yAxisLabels (maxValue : Z) : list Z :=
  [ maxValue;
    JsMath.floor (inject_Z maxValue * (3 # 4))%Q;
    JsMath.floor (inject_Z maxValue * (1 # 2))%Q;
    JsMath.floor (inject_Z maxValue * (1 # 4))%Q;
    0 ].

(** The three totals under the chart, each a [reduce] from 0. *)
Definition totalIncidents (data : list TrendPoint) : Z :=
  fold_left (fun sum d => sum + incidents d) data 0.

Definition totalCritical (data : list TrendPoint) : Z :=
  fold_left (fun sum d => sum + critical d) data 0.

Definition totalResolved (data : list TrendPoint) : Z :=
  fold_left (fun sum d => sum + resolved d) data 0.

End TrendsChart.

(** * The vocabulary of the statements *)

(** ** A sort without exceptions

    The same insertion sort by a boolean "may stand before" test; the
    yardstick the sort of the code is measured against. *)

Module StableSort.
Section Pure.

Context {A : Type}.
Variable le : A -> A -> bool.

Fixpoint insertBy (x : A) (sorted : list A) : list A :=
  match sorted with
  | [] => [x]
  | y :: rest => if le x y then x :: y :: rest else y :: insertBy x rest
  end.

Fixpoint sortBy (l : list A) : list A :=
  match l with
  | [] => []
  | x :: rest => insertBy x (sortBy rest)
  end.

(** Two items tie when each may stand before the other. *)
Definition tie (x y : A) : bool := le x y && le y x.

(** What ECMAScript asks of [sort] for a consistent comparator: the
    outcome is a rearrangement of the input, in order, in which the items
    of every tie keep their input order. *)
Definition stableSortOf (l out : list A) : Prop :=
  Permutation l out
  /\ StronglySorted (fun a b => le a b = true) out
  /\ forall x, filter (tie x) out = filter (tie x) l.

End Pure.

(** On the items of [l] the comparator never throws, and it answers a
    positive number exactly when the test [le] fails. *)
Definition agrees {A : Type} (comparefn : A -> A -> result Z)
    (le : A -> A -> bool) (l : list A) : Prop :=
  forall a b, In a l -> In b l ->
    exists order, comparefn a b = Ok order /\ (order <=? 0) = le a b.

End StableSort.

(** ** The sort states a component can reach

    From the initial state, by clicks on the given column headers. *)

Inductive reachable (columns : list string)
    : string * SortDirection -> Prop :=
| reachable_initial : reachable columns initialSort
| reachable_click (sortField : string) (sortDirection : SortDirection)
    (field : string) :
    reachable columns (sortField, sortDirection) ->
    In field columns ->
    reachable columns (handleSort sortField sortDirection field).

(** ** Subsequences *)

(** [kept] is [l] with some items left out, the rest in their order. *)
Inductive subsequence {A : Type} : list A -> list A -> Prop :=
| subsequence_nil : subsequence [] []
| subsequence_keep (x : A) (kept l : list A) :
    subsequence kept l -> subsequence (x :: kept) (x :: l)
| subsequence_drop (x : A) (kept l : list A) :
    subsequence kept l -> subsequence kept (x :: l).

(** ** The comparator's keys *)

(** The value [aValue] that the comparator derives from a record, before
    lower-casing: a computed total or the attribute read by name. *)
Definition sortKey (sortField : string) (a : Incident) : value :=
  if (sortField =? "totalCasualties")%string then VNumber (totalCasualties a)
  else if (sortField =? "totalLivestock")%string
       then VNumber (totalLivestock a)
       else get a sortField.

(** The same value at the point of comparison: a string is in lower
    case by then. *)
Definition comparedKey (sortField : string) (a : Incident) : value :=
  match sortKey sortField a with
  | VString s => VString (JsString.toLowerCase s)
  | v => v
  end.

Definition isString (v : value) : bool :=
  match v with
  | VString _ => true
  | _ => false
  end.

(** The last statement of the comparator, on the two compared values. *)
Definition threeWay (sortDirection : SortDirection) (x y : value) : Z :=
  match sortDirection with
  | asc =>
      if JsValue.lessThan x y then -1
      else if JsValue.greaterThan x y then 1 else 0
  | desc =>
      if JsValue.greaterThan x y then -1
      else if JsValue.lessThan x y then 1 else 0
  end.

(** "[x] may stand before [y]": the comparator does not answer a
    positive number. *)
Definition notAfter (sortDirection : SortDirection) (x y : value) : bool :=
  match sortDirection with
  | asc => negb (JsValue.lessThan y x)
  | desc => negb (JsValue.lessThan x y)
  end.

Definition precedes (sortField : string) (sortDirection : SortDirection)
    (a b : Incident) : bool :=
  notAfter sortDirection (comparedKey sortField a) (comparedKey sortField b).

(** The records of a list carry the sort attribute all as a string or
    none as a string: the comparator then never calls [toLowerCase] on a
    value that has no such method. *)
Definition uniform (sortField : string) (l : list Incident) : Prop :=
  (forall a, In a l -> isString (sortKey sortField a) = true)
  \/ (forall a, In a l -> isString (sortKey sortField a) = false).

(** The three-way answer of the comparator on two numbers and on two
    strings. *)
Definition numberOrder (sortDirection : SortDirection) (x y : Z) : Z :=
  match sortDirection with
  | asc => if x <? y then -1 else if y <? x then 1 else 0
  | desc => if y <? x then -1 else if x <? y then 1 else 0
  end.

Definition stringOrder (sortDirection : SortDirection) (s t : string) : Z :=
  match sortDirection with
  | asc => if String.ltb s t then -1 else if String.ltb t s then 1 else 0
  | desc => if String.ltb t s then -1 else if String.ltb s t then 1 else 0
  end.

(** "In order" for a direction: non-decreasing when ascending,
    non-increasing when descending. *)
Definition ordered (sortDirection : SortDirection) (x y : Z) : Prop :=
  match sortDirection with
  | asc => x <= y
  | desc => y <= x
  end.

Definition orderedStrings (sortDirection : SortDirection) (s t : string)
    : Prop :=
  match sortDirection with
  | asc => String.leb s t = true
  | desc => String.leb t s = true
  end.

(** The records of a list carry the sort attribute all as a number, or
    all as a string. *)
Definition allNumbers (sortField : string) (l : list Incident) : Prop :=
  forall a, In a l -> exists n, sortKey sortField a = VNumber n.

Definition allStrings (sortField : string) (l : list Incident) : Prop :=
  forall a, In a l -> exists s, sortKey sortField a = VString s.

(** Where the enumerations stand in the alphabet. *)
Definition priorityAlphabetical (p : Priority) : Z :=
  match p with
  | critical => 0
  | high => 1
  | low => 2
  | medium => 3
  end.

Definition statusAlphabetical (s : Status) : Z :=
  match s with
  | closed => 0
  | investigating => 1
  | reported => 2
  | resolved => 3
  | verified => 4
  end.

(** The two orders as boolean tests. *)
Definition leZ (d : SortDirection) (x y : Z) : bool :=
  match d with
  | asc => x <=? y
  | desc => y <=? x
  end.

Definition leS (d : SortDirection) (s t : string) : bool :=
  match d with
  | asc => String.leb s t
  | desc => String.leb t s
  end.

(** The compared key of a record as a number or as a string, for the
    lists on which it is one. *)
Definition numberKey (f : string) (a : Incident) : Z :=
  match sortKey f a with
  | VNumber n => n
  | _ => 0
  end.

Definition stringKey (f : string) (a : Incident) : string :=
  match sortKey f a with
  | VString s => JsString.toLowerCase s
  | _ => ""
  end.

(** Equality of records is decidable. *)
Definition Incident_eq_dec (a b : Incident) : {a = b} + {a <> b}.
Proof.
  repeat decide equality;
    try apply Z.eq_dec; try apply string_dec; try apply Ascii.ascii_dec.
Defined.

(** ** The reporter of a record *)

(** The record with its reporter name and phone replaced. *)
Definition setReporter (i : Incident) (name phone : option string)
    : Incident :=
  {| _id := _id i; _creationTime := _creationTime i;
     incidentType := incidentType i; county := county i;
     subcounty := subcounty i; location := location i;
     incidentDate := incidentDate i; reportedDate := reportedDate i;
     priority := priority i; status := status i;
     description := description i; casualties := casualties i;
     livestockStolen := livestockStolen i; isVerified := isVerified i;
     reporterName := name; reporterPhone := phone;
     isAnonymous := isAnonymous i;
     respondingAgencies := respondingAgencies i;
     actionsTaken := actionsTaken i; responseTime := responseTime i |}.

(** Two records that differ at most in the reporter name and phone. *)
Definition sameButReporter (i1 i2 : Incident) : Prop :=
  setReporter i1 None None = setReporter i2 None None.

(** ** The chart *)

(** The largest of the three counts of a point. *)
Definition pointMax (d : TrendsChart.TrendPoint) : Z :=
  Z.max (Z.max (TrendsChart.incidents d) (TrendsChart.critical d))
        (TrendsChart.resolved d).

(** ** Further vocabulary *)

(** The other direction. *)
Definition opposite (d : SortDirection) : SortDirection :=
  match d with
  | asc => desc
  | desc => asc
  end.

(** The optional attributes that hold a string, each with its name. *)
Definition optionalStringAttributes
    : list (string * (Incident -> option string)) :=
  [ ("subcounty", subcounty); ("reporterName", reporterName);
    ("reporterPhone", reporterPhone); ("actionsTaken", actionsTaken) ].

Definition isArrow (i : icon) : bool :=
  match i with
  | BothWays => false
  | ArrowUp | ArrowDown => true
  end.

(** Equality of values is decidable. *)
Definition value_eq_dec (x y : value) : {x = y} + {x <> y}.
Proof.
  repeat decide equality.
Defined.

(** "The compared key of [a] under the field is [k]", as a test. *)
Definition hasKey (sortField : string) (k : value) (a : Incident) : bool :=
  if value_eq_dec (comparedKey sortField a) k then true else false.

(** A lower-case letter a-z. *)
Definition isLowerLetter (c : ascii) : bool :=
  let n := N_of_ascii c in ((97 <=? n) && (n <=? 122))%N.

(** What a response block leaves on the page, shown or not. *)
Definition itemsOf (b : IncidentsList.responseBlock)
    : list IncidentsList.responseItem :=
  match b with
  | IncidentsList.NoResponseBlock items => items
  | IncidentsList.ResponseBlock items => items
  end.

(** The unit that [capitalizeFrom] writes for a unit [c]. *)
Definition written (inWord : bool) (c : ascii) : ascii :=
  if JsString.isWordChar c && negb inWord
  then JsString.upperWordChar c else c.

(** A string without underscores. *)
Definition noUnderscore (s : string) : Prop :=
  forall c, In c (list_ascii_of_string s) -> c <> "_"%char.

(** ** Sample records *)

Module Samples.

Definition turkanaRaid : Incident :=
  {| _id := "jd7a1q"; _creationTime := 1700000300000;
     incidentType := "cattle_raid"; county := "turkana";
     subcounty := Some "Turkana South"; location := "Lokichar";
     incidentDate := 1700000000000; reportedDate := 1700000200000;
     priority := low; status := reported;
     description := "Night raid on a homestead";
     casualties := {| deaths := 5; injuries := 0; missing := 0 |};
     livestockStolen :=
       {| cattle := 40; goats := 12; sheep := 0; camels := 0; other := 0 |};
     isVerified := false;
     reporterName := Some "A. Ekal"; reporterPhone := Some "0700000001";
     isAnonymous := true; respondingAgencies := ["Police"];
     actionsTaken := None; responseTime := Some 7200000 |}.

Definition baringoRaid : Incident :=
  {| _id := "k93bzx"; _creationTime := 1700100300000;
     incidentType := "armed_attack"; county := "Baringo";
     subcounty := None; location := "Marigat";
     incidentDate := 1700100000000; reportedDate := 1700100200000;
     priority := critical; status := resolved;
     description := "Herd driven off at dawn";
     casualties := {| deaths := 2; injuries := 1; missing := 0 |};
     livestockStolen :=
       {| cattle := 0; goats := 30; sheep := 5; camels := 0; other := 0 |};
     isVerified := true;
     reporterName := None; reporterPhone := None;
     isAnonymous := false; respondingAgencies := [];
     actionsTaken := Some "Patrol sent"; responseTime := None |}.

End Samples.

(** * Properties *)

(** ** Results *)

Lemma bind_Ok_inv {A B : Type} (r : result A) (k : A -> result B) (b : B) :
  bind r k = Ok b -> exists a, r = Ok a /\ k a = Ok b.
Proof.
  destruct r as [a|e]; simpl; intros H; [eauto | discriminate].
Qed.

(** ** Strings *)

Module JsStringFacts.
Import JsString.

Lemma prefix_app (t s : string) :
  String.prefix t s = true <-> exists v, s = (t ++ v)%string.
Proof.
  revert s; induction t as [|c t IH]; intros s; simpl.
  - destruct s; split; eauto.
  - destruct s as [|d s]; simpl.
    + split; [discriminate | intros [v Hv]; discriminate].
    + destruct (ascii_dec c d) as [->|Hcd].
      * rewrite IH. split; intros [v Hv]; exists v; congruence.
      * split; [discriminate | intros [v Hv]; congruence].
Qed.

Lemma includes_spec (s t : string) :
  includes s t = true <-> substringOf t s.
Proof.
  unfold substringOf. induction s as [|c s IH].
  - cbn [includes]. rewrite orb_false_r, prefix_app. split.
    + intros [v Hv]. exists EmptyString, v. exact Hv.
    + intros [u [v Huv]]. destruct u; [eauto | discriminate].
  - cbn [includes]. rewrite orb_true_iff, prefix_app, IH. split.
    + intros [[v Hv]|[u [v Huv]]].
      * exists EmptyString, v. exact Hv.
      * exists (String c u), v. simpl. congruence.
    + intros [u [v Huv]]. destruct u as [|d u]; simpl in Huv.
      * left. eauto.
      * right. exists u, v. congruence.
Qed.

Lemma toLowerCase_app (u v : string) :
  toLowerCase (u ++ v) = (toLowerCase u ++ toLowerCase v)%string.
Proof.
  induction u as [|c u IH]; simpl; congruence.
Qed.

Lemma toLowerCase_length (s : string) :
  String.length (toLowerCase s) = String.length s.
Proof.
  induction s as [|c s IH]; simpl; congruence.
Qed.

(** Splitting a lower-cased text splits the text. *)
Lemma toLowerCase_split (s u v : string) :
  toLowerCase s = (u ++ v)%string ->
  exists u' v', s = (u' ++ v')%string
                /\ toLowerCase u' = u /\ toLowerCase v' = v.
Proof.
  revert s; induction u as [|c u IH]; intros s H; simpl in H.
  - exists EmptyString, s. auto.
  - destruct s as [|d s]; simpl in H; [discriminate|].
    injection H as Hc Hs. destruct (IH _ Hs) as [u' [v' [-> [Hu Hv]]]].
    exists (String d u'), v'. simpl. repeat split; congruence.
Qed.

(** Case-insensitive containment is what the code tests: the lower-cased
    term inside the lower-cased text. *)
Lemma includes_ignoring_case (text term : string) :
  includes (toLowerCase text) (toLowerCase term) = true <->
  containsIgnoringCase text term.
Proof.
  rewrite includes_spec. unfold containsIgnoringCase, substringOf. split.
  - intros [u [v H]].
    destruct (toLowerCase_split _ _ _ H) as [u' [r [-> [Hu Hr]]]].
    destruct (toLowerCase_split _ _ _ Hr) as [w [v' [-> [Hw Hv]]]].
    exists u', w, v'. auto.
  - intros [u [w [v [-> Hw]]]].
    exists (toLowerCase u), (toLowerCase v).
    now rewrite !toLowerCase_app, Hw.
Qed.

Lemma compare_refl (s : string) : String.compare s s = Eq.
Proof.
  exact (proj2 (String_as_OT.cmp_eq s s) eq_refl).
Qed.

Lemma ltb_irrefl (s : string) : String.ltb s s = false.
Proof.
  unfold String.ltb. now rewrite compare_refl.
Qed.

Lemma negb_ltb_leb (s t : string) :
  negb (String.ltb t s) = String.leb s t.
Proof.
  unfold String.ltb, String.leb. rewrite (String.compare_antisym s t).
  destruct (String.compare t s); reflexivity.
Qed.

Lemma ltb_lt (s t : string) :
  String.ltb s t = true <-> String_as_OT.lt s t.
Proof.
  unfold String.ltb. rewrite <- String_as_OT.cmp_lt.
  unfold String_as_OT.cmp. destruct (String.compare s t); split;
    congruence.
Qed.

Lemma ltb_trans (s t u : string) :
  String.ltb s t = true -> String.ltb t u = true -> String.ltb s u = true.
Proof.
  rewrite !ltb_lt. apply String_as_OT.lt_trans.
Qed.

Lemma leb_ltb_or_eq (s t : string) :
  String.leb s t = true <-> String.ltb s t = true \/ s = t.
Proof.
  unfold String.leb, String.ltb.
  destruct (String.compare s t) eqn:E.
  - apply String.compare_eq_iff in E. tauto.
  - tauto.
  - split; [discriminate|]. intros [H| ->]; [discriminate|].
    rewrite compare_refl in E. discriminate.
Qed.

Lemma leb_trans (s t u : string) :
  String.leb s t = true -> String.leb t u = true -> String.leb s u = true.
Proof.
  rewrite !leb_ltb_or_eq. intros [H1| ->] [H2| ->]; auto.
  left. eapply ltb_trans; eauto.
Qed.

Lemma ltb_asym (s t : string) :
  String.ltb s t = true -> String.ltb t s = false.
Proof.
  intros H. destruct (String.ltb t s) eqn:E; [|reflexivity].
  pose proof (ltb_trans _ _ _ H E) as F. rewrite ltb_irrefl in F.
  discriminate.
Qed.

End JsStringFacts.

(** ** Sorting *)

Module JsArrayFacts.
Import JsArray StableSort.

Section Pure.

Context {A : Type}.
Variable le : A -> A -> bool.

Lemma insertBy_Permutation (x : A) (sorted : list A) :
  Permutation (x :: sorted) (insertBy le x sorted).
Proof.
  induction sorted as [|y rest IH]; simpl.
  - apply Permutation_refl.
  - destruct (le x y).
    + apply Permutation_refl.
    + eapply perm_trans; [apply perm_swap|]. now apply perm_skip.
Qed.

Lemma sortBy_Permutation (l : list A) : Permutation l (sortBy le l).
Proof.
  induction l as [|x rest IH]; simpl.
  - apply perm_nil.
  - eapply perm_trans; [apply perm_skip, IH|].
    apply insertBy_Permutation.
Qed.

Lemma sortBy_In (l : list A) (a : A) : In a (sortBy le l) <-> In a l.
Proof.
  split; apply Permutation_in;
    [apply Permutation_sym|]; apply sortBy_Permutation.
Qed.

(** Where nothing has to move, nothing moves. *)
Lemma sortBy_in_order (l : list A) :
  StronglySorted (fun a b => le a b = true) l -> sortBy le l = l.
Proof.
  induction 1 as [|x rest Hs IH Hx]; simpl; [reflexivity|].
  rewrite IH. destruct rest as [|y rest']; simpl; [reflexivity|].
  inversion Hx as [|? ? Hxy _]; subst. now rewrite Hxy.
Qed.

Hypothesis le_total : forall a b, le a b = true \/ le b a = true.
Hypothesis le_trans :
  forall a b c, le a b = true -> le b c = true -> le a c = true.

Lemma insertBy_sorted (x : A) (sorted : list A) :
  StronglySorted (fun a b => le a b = true) sorted ->
  StronglySorted (fun a b => le a b = true) (insertBy le x sorted).
Proof.
  induction 1 as [|y rest Hs IH Hy]; simpl.
  - repeat constructor.
  - destruct (le x y) eqn:Hxy.
    + constructor; [now constructor|].
      constructor; [exact Hxy|].
      eapply Forall_impl; [|exact Hy]. intros c Hc. eauto.
    + constructor; [exact IH|].
      eapply Permutation_Forall; [apply insertBy_Permutation|].
      constructor; [|exact Hy].
      destruct (le_total x y) as [H|H]; congruence.
Qed.

Lemma sortBy_sorted (l : list A) :
  StronglySorted (fun a b => le a b = true) (sortBy le l).
Proof.
  induction l as [|x rest IH]; simpl.
  - constructor.
  - now apply insertBy_sorted.
Qed.

End Pure.

Lemma insertBy_ext {A : Type} (le le' : A -> A -> bool) (x : A)
    (sorted : list A) :
  (forall b, In b sorted -> le x b = le' x b) ->
  insertBy le x sorted = insertBy le' x sorted.
Proof.
  induction sorted as [|y ys IH]; intros H; simpl; [reflexivity|].
  rewrite <- H by (simpl; auto).
  destruct (le x y); [reflexivity|].
  f_equal. apply IH. intros; apply H; simpl; auto.
Qed.

Lemma sortBy_ext {A : Type} (le le' : A -> A -> bool) (l : list A) :
  (forall a b, In a l -> In b l -> le a b = le' a b) ->
  sortBy le l = sortBy le' l.
Proof.
  induction l as [|x rest IH]; intros H; simpl; [reflexivity|].
  rewrite <- IH by (intros; apply H; simpl; auto).
  apply insertBy_ext. intros b Hb. apply sortBy_In in Hb.
  apply H; simpl; auto.
Qed.

(** The sort of the code. *)
Section Monadic.

Context {A : Type}.
Variable comparefn : A -> A -> result Z.

Lemma insert_Permutation (x : A) (sorted out : list A) :
  insert comparefn x sorted = Ok out -> Permutation (x :: sorted) out.
Proof.
  revert out; induction sorted as [|y rest IH]; intros out; simpl.
  - intros H; injection H as <-. apply Permutation_refl.
  - intros H. apply bind_Ok_inv in H as [order [_ H]].
    destruct (order <=? 0).
    + injection H as <-. apply Permutation_refl.
    + apply bind_Ok_inv in H as [rest' [Hrest H]].
      injection H as <-.
      eapply perm_trans; [apply perm_swap|]. apply perm_skip; auto.
Qed.

Lemma sort_Permutation (l out : list A) :
  sort comparefn l = Ok out -> Permutation l out.
Proof.
  revert out; induction l as [|x rest IH]; intros out; simpl.
  - intros H; injection H as <-. apply perm_nil.
  - intros H. apply bind_Ok_inv in H as [sorted [Hs H]].
    eapply perm_trans; [apply perm_skip, IH, Hs|].
    now apply insert_Permutation.
Qed.

Variable le : A -> A -> bool.

Lemma insert_insertBy (x : A) (sorted : list A) :
  (forall b, In b sorted ->
     exists order, comparefn x b = Ok order /\ (order <=? 0) = le x b) ->
  insert comparefn x sorted = Ok (insertBy le x sorted).
Proof.
  induction sorted as [|y rest IH]; intros H; simpl; [reflexivity|].
  destruct (H y) as [order [-> Hle]]; [simpl; auto|]. simpl.
  rewrite Hle. destruct (le x y); [reflexivity|].
  rewrite IH by (intros; apply H; simpl; auto). reflexivity.
Qed.

(** Where the comparator agrees with a test, the sort of the code
    returns, and returns the pure sort by that test. *)
Lemma sort_sortBy (l : list A) :
  agrees comparefn le l -> sort comparefn l = Ok (sortBy le l).
Proof.
  induction l as [|x rest IH]; intros H; simpl; [reflexivity|].
  rewrite IH by (intros a b Ha Hb; apply H; simpl; auto). simpl.
  apply insert_insertBy. intros b Hb. apply sortBy_In in Hb.
  apply H; simpl; auto.
Qed.

End Monadic.

(** Sorted lists. *)
Section Sorted.

Context {A : Type}.
Variable R : A -> A -> Prop.

Lemma StronglySorted_app_one (l : list A) (x : A) :
  StronglySorted R l -> Forall (fun y => R y x) l ->
  StronglySorted R (l ++ [x]).
Proof.
  induction 1 as [|y rest Hs IH Hy]; intros Hx; simpl.
  - repeat constructor.
  - inversion Hx as [|? ? Hyx Hrest]; subst.
    constructor; [auto|].
    apply Forall_app. split; [exact Hy | repeat constructor; exact Hyx].
Qed.

Lemma StronglySorted_rev (l : list A) :
  StronglySorted (fun a b => R b a) l -> StronglySorted R (rev l).
Proof.
  induction 1 as [|y rest Hs IH Hy]; simpl.
  - constructor.
  - apply StronglySorted_app_one; [exact IH|].
    apply Forall_rev. exact Hy.
Qed.

(** In a sorted list the earlier position holds the smaller item. *)
Lemma StronglySorted_nth (l : list A) (i j : nat) (x y : A) :
  StronglySorted R l -> (i < j)%nat ->
  nth_error l i = Some x -> nth_error l j = Some y -> R x y.
Proof.
  intros Hs; revert i j; induction Hs as [|z rest Hs IH Hz];
    intros i j Hij Hi Hj.
  - destruct i; discriminate.
  - destruct j as [|j]; [lia|]. simpl in Hj.
    destruct i as [|i]; simpl in Hi.
    + injection Hi as <-. rewrite Forall_forall in Hz.
      apply Hz. eapply nth_error_In; eauto.
    + apply (IH i j); auto. lia.
Qed.

(** Two sorted arrangements of the same items are the same list,
    when no two items tie. *)
Lemma StronglySorted_unique (l1 l2 : list A) :
  (forall a b, In a l1 -> In b l1 -> R a b -> R b a -> a = b) ->
  StronglySorted R l1 -> StronglySorted R l2 -> Permutation l1 l2 ->
  l1 = l2.
Proof.
  intros Hanti H1; revert l2 Hanti;
    induction H1 as [|x rest1 Hs1 IH Hx]; intros l2 Hanti H2 Hp.
  - apply Permutation_nil in Hp. now subst.
  - destruct l2 as [|y rest2].
    + apply Permutation_sym, Permutation_nil in Hp. discriminate.
    + inversion H2 as [|? ? Hs2 Hy]; subst.
      assert (Hxy : x = y).
      { assert (Hx2 : In x (y :: rest2))
          by (eapply Permutation_in; [exact Hp | simpl; auto]).
        assert (Hy1 : In y (x :: rest1))
          by (eapply Permutation_in;
              [apply Permutation_sym; exact Hp | simpl; auto]).
        destruct Hx2 as [->|Hx2]; [reflexivity|].
        destruct Hy1 as [->|Hy1]; [reflexivity|].
        rewrite Forall_forall in Hx, Hy.
        apply Hanti; simpl; auto. }
      subst y. f_equal. apply IH; auto.
      * intros a b Ha Hb. apply Hanti; simpl; auto.
      * eapply Permutation_cons_inv; eauto.
Qed.

End Sorted.

(** Sorting by the opposite test reverses the outcome, when no two
    items of the list tie. *)
Lemma sortBy_flip {A : Type} (le : A -> A -> bool) (l : list A) :
  (forall a b, le a b = true \/ le b a = true) ->
  (forall a b c, le a b = true -> le b c = true -> le a c = true) ->
  (forall a b, In a l -> In b l -> le a b = true -> le b a = true -> a = b) ->
  sortBy (fun a b => le b a) l = rev (sortBy le l).
Proof.
  intros Htotal Htrans Hanti.
  apply (StronglySorted_unique (fun a b => le b a = true)).
  - intros a b Ha Hb Hab Hba. apply sortBy_In in Ha, Hb. symmetry. auto.
  - apply sortBy_sorted with (le := fun a b => le b a).
    + intros a b. apply Htotal.
    + intros a b c Hab Hbc. eapply Htrans; eauto.
  - apply StronglySorted_rev. now apply sortBy_sorted.
  - eapply perm_trans; [apply Permutation_sym, sortBy_Permutation|].
    eapply perm_trans; [apply sortBy_Permutation with (le := le)|].
    apply Permutation_rev.
Qed.

(** The insertion sort is a stable sort, and a stable sort has one
    outcome only: which algorithm the engine runs does not matter where
    the comparator is a consistent order. *)
Section Stable.

Context {A : Type}.
Variable le : A -> A -> bool.
Hypothesis le_total : forall a b, le a b = true \/ le b a = true.
Hypothesis le_trans :
  forall a b c, le a b = true -> le b c = true -> le a c = true.

Lemma tie_refl (x : A) : tie le x x = true.
Proof. unfold tie. now destruct (le_total x x) as [-> | ->]. Qed.

Lemma tie_both (z x y : A) :
  tie le z x = true -> tie le z y = true -> le x y = true.
Proof.
  unfold tie. rewrite !andb_true_iff. intros [_ Hxz] [Hzy _]. eauto.
Qed.

Lemma insertBy_stable (z x : A) (sorted : list A) :
  filter (tie le z) (insertBy le x sorted) = filter (tie le z) (x :: sorted).
Proof.
  induction sorted as [|y rest IH]; [reflexivity|].
  cbn [insertBy]. destruct (le x y) eqn:Hxy; [reflexivity|].
  cbn [filter] in *. rewrite IH.
  destruct (tie le z x) eqn:Hzx, (tie le z y) eqn:Hzy; try reflexivity.
  rewrite (tie_both z x y Hzx Hzy) in Hxy. discriminate.
Qed.

Lemma sortBy_stable (z : A) (l : list A) :
  filter (tie le z) (sortBy le l) = filter (tie le z) l.
Proof.
  induction l as [|x rest IH]; [reflexivity|].
  cbn [sortBy]. rewrite insertBy_stable. cbn [filter]. now rewrite IH.
Qed.

Lemma sortBy_stableSortOf (l : list A) : stableSortOf le l (sortBy le l).
Proof.
  split; [apply sortBy_Permutation|].
  split; [now apply sortBy_sorted|].
  intros x. apply sortBy_stable.
Qed.

Lemma stable_unique (out1 out2 : list A) :
  StronglySorted (fun a b => le a b = true) out1 ->
  StronglySorted (fun a b => le a b = true) out2 ->
  Permutation out1 out2 ->
  (forall x, filter (tie le x) out1 = filter (tie le x) out2) ->
  out1 = out2.
Proof.
  intros H1; revert out2; induction H1 as [|a r1 Hs1 IH Ha];
    intros out2 H2 Hp Hf.
  - apply Permutation_nil in Hp. now subst.
  - destruct out2 as [|b r2].
    + apply Permutation_sym, Permutation_nil in Hp. discriminate.
    + inversion H2 as [|? ? Hs2 Hb]; subst.
      rewrite Forall_forall in Ha, Hb.
      assert (Hab : le a b = true).
      { assert (Hin : In b (a :: r1))
          by (eapply Permutation_in;
              [apply Permutation_sym; exact Hp | simpl; auto]).
        destruct Hin as [->|Hin]; [|auto].
        now destruct (le_total b b). }
      assert (Hba : le b a = true).
      { assert (Hin : In a (b :: r2))
          by (eapply Permutation_in; [exact Hp | simpl; auto]).
        destruct Hin as [->|Hin]; [|auto].
        now destruct (le_total a a). }
      assert (Heq : a = b).
      { specialize (Hf a). cbn [filter] in Hf.
        rewrite tie_refl in Hf. unfold tie at 2 in Hf.
        rewrite Hab, Hba in Hf. simpl in Hf. congruence. }
      subst b. f_equal. apply IH; auto.
      * eapply Permutation_cons_inv; eauto.
      * intros x. specialize (Hf x). cbn [filter] in Hf.
        destruct (tie le x a); congruence.
Qed.

(** Any stable sort of [l] is the list the insertion sort returns. *)
Lemma stableSortOf_unique (l out : list A) :
  stableSortOf le l out -> out = sortBy le l.
Proof.
  intros [Hp [Hs Hf]]. apply stable_unique; auto.
  - now apply sortBy_sorted.
  - eapply perm_trans; [apply Permutation_sym; exact Hp|].
    apply sortBy_Permutation.
  - intros x. now rewrite Hf, sortBy_stable.
Qed.

End Stable.

End JsArrayFacts.

(** ** The comparator *)

Module ComparatorFacts.

Lemma compareFn_sortKey (f : string) (d : SortDirection) (a b : Incident) :
  compareFn f d a b =
  match sortKey f a, sortKey f b with
  | VString s, VString t =>
      Ok (threeWay d (VString (JsString.toLowerCase s))
                     (VString (JsString.toLowerCase t)))
  | VString _, _ => Throw TypeError
  | x, y => Ok (threeWay d x y)
  end.
Proof.
  unfold compareFn, sortKey, totalCasualties, totalLivestock.
  destruct (f =? "totalCasualties")%string; [reflexivity|].
  destruct (f =? "totalLivestock")%string; [reflexivity|].
  destruct (get a f), (get b f); reflexivity.
Qed.

Lemma compareFn_Ok (f : string) (d : SortDirection) (a b : Incident) :
  isString (sortKey f a) = isString (sortKey f b) ->
  compareFn f d a b = Ok (threeWay d (comparedKey f a) (comparedKey f b)).
Proof.
  rewrite compareFn_sortKey. unfold comparedKey.
  destruct (sortKey f a), (sortKey f b); simpl; intros H;
    try reflexivity; discriminate.
Qed.

Lemma lessThan_asym (x y : value) :
  JsValue.lessThan x y = true -> JsValue.lessThan y x = false.
Proof.
  unfold JsValue.lessThan.
  destruct x, y; simpl; intros H; try reflexivity; try discriminate;
    try (apply JsStringFacts.ltb_asym; exact H); try lia;
    repeat match goal with b : bool |- _ => destruct b end;
    try reflexivity; try discriminate.
Qed.

Lemma threeWay_sign (d : SortDirection) (x y : value) :
  (threeWay d x y <=? 0) = notAfter d x y.
Proof.
  unfold threeWay, notAfter, JsValue.greaterThan.
  destruct d.
  - destruct (JsValue.lessThan x y) eqn:Hxy.
    + now rewrite (lessThan_asym _ _ Hxy).
    + now destruct (JsValue.lessThan y x).
  - destruct (JsValue.lessThan y x) eqn:Hyx.
    + now rewrite (lessThan_asym _ _ Hyx).
    + now destruct (JsValue.lessThan x y).
Qed.

Lemma uniform_agrees (f : string) (d : SortDirection) (l : list Incident) :
  uniform f l -> StableSort.agrees (compareFn f d) (precedes f d) l.
Proof.
  intros Hu a b Ha Hb. exists (threeWay d (comparedKey f a) (comparedKey f b)).
  split; [|apply threeWay_sign].
  apply compareFn_Ok.
  destruct Hu as [H|H]; now rewrite (H a Ha), (H b Hb).
Qed.

(** On a uniform list the sort of the code returns, and returns the
    pure sort by [precedes]. *)
Lemma sort_compareFn (f : string) (d : SortDirection) (l : list Incident) :
  uniform f l ->
  JsArray.sort (compareFn f d) l = Ok (StableSort.sortBy (precedes f d) l).
Proof.
  intros Hu. apply JsArrayFacts.sort_sortBy. now apply uniform_agrees.
Qed.

Lemma uniform_filter (f : string) (p : Incident -> bool) (l : list Incident) :
  uniform f l -> uniform f (filter p l).
Proof.
  intros [H|H]; [left|right]; intros a Ha; apply filter_In in Ha; apply H;
    tauto.
Qed.

(** A name the records do not carry: every comparison answers 0 and
    the sort returns its input. *)
Lemma compareFn_absent (f : string) (d : SortDirection) (a b : Incident) :
  sortKey f a = VUndefined -> sortKey f b = VUndefined ->
  compareFn f d a b = Ok 0.
Proof.
  intros Ha Hb. rewrite compareFn_sortKey, Ha, Hb. now destruct d.
Qed.

Lemma sort_absent (f : string) (d : SortDirection) (l : list Incident) :
  (forall a, sortKey f a = VUndefined) ->
  JsArray.sort (compareFn f d) l = Ok l.
Proof.
  intros H.
  rewrite (JsArrayFacts.sort_sortBy _ (fun _ _ => true)).
  - f_equal. apply JsArrayFacts.sortBy_in_order.
    induction l as [|x rest IH]; constructor; auto.
    now apply Forall_forall.
  - intros a b _ _. exists 0. now rewrite compareFn_absent.
Qed.

(** An optional string attribute that one record carries and the other
    lacks: [toLowerCase] is called on [undefined]. *)
Lemma compareFn_throws :
  compareFn "subcounty" asc Samples.turkanaRaid Samples.baringoRaid
  = Throw TypeError.
Proof. reflexivity. Qed.

End ComparatorFacts.

(** ** Reading attributes *)

Module IncidentFacts.

Lemma properties_keys (i : Incident) : map fst (properties i) = incidentKeys.
Proof. reflexivity. Qed.

Lemma lookup_absent (key : string) (props : list (string * value)) :
  ~ In key (map fst props) -> lookup key props = VUndefined.
Proof.
  induction props as [|[name v] rest IH]; simpl; intros H; [reflexivity|].
  destruct (String.eqb_spec name key) as [->|_]; [tauto|].
  apply IH. tauto.
Qed.

(** A name outside [keyof Incident] reads as [undefined]. *)
Lemma get_absent (i : Incident) (key : string) :
  ~ In key incidentKeys -> get i key = VUndefined.
Proof.
  intros H. apply lookup_absent. now rewrite properties_keys.
Qed.

Lemma sortKey_absent (f : string) (a : Incident) :
  ~ In f incidentKeys -> f <> "totalCasualties" -> f <> "totalLivestock" ->
  sortKey f a = VUndefined.
Proof.
  intros Hk Hc Hl. unfold sortKey.
  destruct (String.eqb_spec f "totalCasualties"); [contradiction|].
  destruct (String.eqb_spec f "totalLivestock"); [contradiction|].
  now apply get_absent.
Qed.

Lemma get_string_sortKey (f : string) (a : Incident) (s : string) :
  get a f = VString s -> sortKey f a = VString s.
Proof.
  unfold sortKey.
  destruct (String.eqb_spec f "totalCasualties") as [->|_];
    [discriminate|].
  destruct (String.eqb_spec f "totalLivestock") as [->|_];
    [discriminate|].
  auto.
Qed.

(** Two records carry an attribute with the same run-time type, unless
    one of them lacks it. *)
Lemma get_same_type (a b : Incident) (key : string) :
  typeof (get a key) = typeof (get b key)
  \/ get a key = VUndefined \/ get b key = VUndefined.
Proof.
  unfold get, properties, lookup, optional.
  repeat match goal with
         | |- context [if (?name =? key)%string then _ else _] =>
             destruct (name =? key)%string;
             [ repeat match goal with
                      | |- context [match ?o with Some _ => _ | None => _ end]
                        => destruct o
                      end; simpl; auto | ]
         end.
  auto.
Qed.

(** So the comparator never compares a string (or an object or array,
    which print as strings) with a number or a boolean: the one case in
    which [JsValue.lessThan] does not follow ToNumber. *)
Lemma sortKey_same_type (f : string) (a b : Incident) :
  typeof (sortKey f a) = typeof (sortKey f b)
  \/ sortKey f a = VUndefined \/ sortKey f b = VUndefined.
Proof.
  unfold sortKey.
  destruct (f =? "totalCasualties")%string; [auto|].
  destruct (f =? "totalLivestock")%string; [auto|].
  apply get_same_type.
Qed.

End IncidentFacts.

(** ** Lists *)

Module ListFacts.

Lemma filter_length_le {A : Type} (p q : A -> bool) (l : list A) :
  (forall x, In x l -> p x = true -> q x = true) ->
  (List.length (filter p l) <= List.length (filter q l))%nat.
Proof.
  induction l as [|x rest IH]; intros H; simpl; [lia|].
  assert (IH' := IH (fun y Hy => H y (or_intror Hy))).
  destruct (p x) eqn:Hp.
  - rewrite (H x (or_introl eq_refl) Hp). simpl. lia.
  - destruct (q x); simpl; lia.
Qed.

Lemma count_occ_filter_le {A : Type}
    (eq_dec : forall a b : A, {a = b} + {a <> b})
    (p : A -> bool) (l : list A) (x : A) :
  (count_occ eq_dec (filter p l) x <= count_occ eq_dec l x)%nat.
Proof.
  induction l as [|y rest IH]; simpl; [lia|].
  destruct (p y); simpl; destruct (eq_dec y x); lia.
Qed.

Lemma filter_length {A : Type} (p : A -> bool) (l : list A) :
  (List.length (filter p l) <= List.length l)%nat.
Proof.
  induction l as [|y rest IH]; simpl; [lia|]. destruct (p y); simpl; lia.
Qed.

Lemma NoDup_map_filter {A B : Type} (k : A -> B) (p : A -> bool) (l : list A) :
  NoDup (map k l) -> NoDup (map k (filter p l)).
Proof.
  induction l as [|x rest IH]; simpl; intros H; [constructor|].
  inversion H as [|? ? Hx Hrest]; subst.
  destruct (p x); simpl; [|auto].
  constructor; [|auto].
  intros Hin. apply Hx. apply in_map_iff in Hin as [y [Hy Hin]].
  apply in_map_iff. exists y. split; [exact Hy|].
  apply filter_In in Hin. tauto.
Qed.

Lemma NoDup_map_inj {A B : Type} (k : A -> B) (l : list A) (a b : A) :
  NoDup (map k l) -> In a l -> In b l -> k a = k b -> a = b.
Proof.
  induction l as [|x rest IH]; simpl; intros H Ha Hb Hk; [contradiction|].
  inversion H as [|? ? Hx Hrest]; subst.
  destruct Ha as [->|Ha], Hb as [->|Hb]; auto.
  - exfalso. apply Hx. rewrite Hk. now apply in_map.
  - exfalso. apply Hx. rewrite <- Hk. now apply in_map.
Qed.

Lemma filter_subsequence {A : Type} (p : A -> bool) (l : list A) :
  subsequence (filter p l) l.
Proof.
  induction l as [|x rest IH]; simpl; [constructor|].
  destruct (p x); now constructor.
Qed.

End ListFacts.

(** ** Orders on the compared values *)

Module OrderFacts.

Lemma StronglySorted_impl {A : Type} (R R' : A -> A -> Prop) (l : list A) :
  (forall a b, In a l -> In b l -> R a b -> R' a b) ->
  StronglySorted R l -> StronglySorted R' l.
Proof.
  intros H Hs; induction Hs as [|x rest Hs IH Hx]; constructor.
  - apply IH. intros a b Ha Hb. apply H; simpl; auto.
  - rewrite Forall_forall in *. intros y Hy. apply H; simpl; auto.
Qed.

Lemma notAfter_numbers (d : SortDirection) (x y : Z) :
  notAfter d (VNumber x) (VNumber y) = leZ d x y.
Proof.
  destruct d; simpl; unfold JsValue.lessThan; simpl; lia.
Qed.

Lemma notAfter_strings (d : SortDirection) (s t : string) :
  notAfter d (VString s) (VString t) = leS d s t.
Proof.
  destruct d; simpl; unfold JsValue.lessThan; simpl;
    apply JsStringFacts.negb_ltb_leb.
Qed.

Lemma leZ_total (d : SortDirection) (x y : Z) :
  leZ d x y = true \/ leZ d y x = true.
Proof. destruct d; simpl; lia. Qed.

Lemma leZ_trans (d : SortDirection) (x y z : Z) :
  leZ d x y = true -> leZ d y z = true -> leZ d x z = true.
Proof. destruct d; simpl; lia. Qed.

Lemma leS_total (d : SortDirection) (s t : string) :
  leS d s t = true \/ leS d t s = true.
Proof. destruct d; simpl; [|apply or_comm]; apply String.leb_total. Qed.

Lemma leS_trans (d : SortDirection) (s t u : string) :
  leS d s t = true -> leS d t u = true -> leS d s u = true.
Proof.
  destruct d; simpl; intros H1 H2; eapply JsStringFacts.leb_trans; eauto.
Qed.

Lemma leZ_ordered (d : SortDirection) (x y : Z) :
  leZ d x y = true <-> ordered d x y.
Proof. destruct d; simpl; lia. Qed.

Lemma leS_ordered (d : SortDirection) (s t : string) :
  leS d s t = true <-> orderedStrings d s t.
Proof. destruct d; simpl; tauto. Qed.

Lemma allNumbers_uniform (f : string) (l : list Incident) :
  allNumbers f l -> uniform f l.
Proof. intros H. right. intros a Ha. now destruct (H a Ha) as [n ->]. Qed.

Lemma allStrings_uniform (f : string) (l : list Incident) :
  allStrings f l -> uniform f l.
Proof. intros H. left. intros a Ha. now destruct (H a Ha) as [n ->]. Qed.

Lemma precedes_numbers (f : string) (d : SortDirection) (l : list Incident) :
  allNumbers f l ->
  forall a b, In a l -> In b l ->
    precedes f d a b = leZ d (numberKey f a) (numberKey f b).
Proof.
  intros H a b Ha Hb. unfold precedes, comparedKey, numberKey.
  destruct (H a Ha) as [n ->], (H b Hb) as [m ->].
  apply notAfter_numbers.
Qed.

Lemma precedes_strings (f : string) (d : SortDirection) (l : list Incident) :
  allStrings f l ->
  forall a b, In a l -> In b l ->
    precedes f d a b = leS d (stringKey f a) (stringKey f b).
Proof.
  intros H a b Ha Hb. unfold precedes, comparedKey, stringKey.
  destruct (H a Ha) as [n ->], (H b Hb) as [m ->].
  apply notAfter_strings.
Qed.

(** Sorting a list whose keys are all numbers: the sort returns a
    rearrangement that is in order by the numbers. *)
Lemma sort_numbers (f : string) (d : SortDirection) (l : list Incident) :
  allNumbers f l ->
  exists out,
    JsArray.sort (compareFn f d) l = Ok out
    /\ Permutation l out
    /\ StronglySorted
         (fun a b => ordered d (numberKey f a) (numberKey f b)) out.
Proof.
  intros H. eexists. split; [|split].
  - apply ComparatorFacts.sort_compareFn. now apply allNumbers_uniform.
  - apply JsArrayFacts.sortBy_Permutation.
  - rewrite (JsArrayFacts.sortBy_ext _ _ _ (precedes_numbers f d l H)).
    eapply StronglySorted_impl;
      [|apply JsArrayFacts.sortBy_sorted with
          (le := fun a b => leZ d (numberKey f a) (numberKey f b))].
    + intros a b _ _. apply leZ_ordered.
    + intros a b. apply leZ_total.
    + intros a b c. apply leZ_trans.
Qed.

(** The same for keys that are all strings: in order by the lower-cased
    strings. *)
Lemma sort_strings (f : string) (d : SortDirection) (l : list Incident) :
  allStrings f l ->
  exists out,
    JsArray.sort (compareFn f d) l = Ok out
    /\ Permutation l out
    /\ StronglySorted
         (fun a b => orderedStrings d (stringKey f a) (stringKey f b)) out.
Proof.
  intros H. eexists. split; [|split].
  - apply ComparatorFacts.sort_compareFn. now apply allStrings_uniform.
  - apply JsArrayFacts.sortBy_Permutation.
  - rewrite (JsArrayFacts.sortBy_ext _ _ _ (precedes_strings f d l H)).
    eapply StronglySorted_impl;
      [|apply JsArrayFacts.sortBy_sorted with
          (le := fun a b => leS d (stringKey f a) (stringKey f b))].
    + intros a b _ _. apply leS_ordered.
    + intros a b. apply leS_total.
    + intros a b c. apply leS_trans.
Qed.

Lemma allNumbers_filter (f : string) (p : Incident -> bool)
    (l : list Incident) :
  allNumbers f l -> allNumbers f (filter p l).
Proof. intros H a Ha. apply filter_In in Ha. apply H. tauto. Qed.

Lemma allStrings_filter (f : string) (p : Incident -> bool)
    (l : list Incident) :
  allStrings f l -> allStrings f (filter p l).
Proof. intros H a Ha. apply filter_In in Ha. apply H. tauto. Qed.

(** On such lists any stable sort by the keys is the list the call
    returns: the outcome does not depend on the engine's algorithm. *)
Lemma sort_numbers_any_stable_sort (f : string) (d : SortDirection)
    (l out : list Incident) :
  allNumbers f l ->
  StableSort.stableSortOf
    (fun a b => leZ d (numberKey f a) (numberKey f b)) l out ->
  JsArray.sort (compareFn f d) l = Ok out.
Proof.
  intros H Hout.
  rewrite ComparatorFacts.sort_compareFn by now apply allNumbers_uniform.
  rewrite (JsArrayFacts.sortBy_ext _ _ _ (precedes_numbers f d l H)).
  f_equal. symmetry. apply JsArrayFacts.stableSortOf_unique; auto.
  - intros a b. apply leZ_total.
  - intros a b c. apply leZ_trans.
Qed.

Lemma sort_strings_any_stable_sort (f : string) (d : SortDirection)
    (l out : list Incident) :
  allStrings f l ->
  StableSort.stableSortOf
    (fun a b => leS d (stringKey f a) (stringKey f b)) l out ->
  JsArray.sort (compareFn f d) l = Ok out.
Proof.
  intros H Hout.
  rewrite ComparatorFacts.sort_compareFn by now apply allStrings_uniform.
  rewrite (JsArrayFacts.sortBy_ext _ _ _ (precedes_strings f d l H)).
  f_equal. symmetry. apply JsArrayFacts.stableSortOf_unique; auto.
  - intros a b. apply leS_total.
  - intros a b c. apply leS_trans.
Qed.

End OrderFacts.

(** ** The sort states *)

Module SortStateFacts.

(** The sort field is always the initial one or a column. *)
Lemma reachable_field (columns : list string) (st : string * SortDirection) :
  reachable columns st -> fst st = "incidentDate" \/ In (fst st) columns.
Proof.
  induction 1 as [|f d field Hst IH Hin]; [now left|].
  unfold handleSort. destruct (f =? field)%string; simpl; auto.
Qed.

(** A second click on the same column flips the direction and keeps
    the field. *)
Lemma handleSort_twice (f : string) (d : SortDirection) :
  handleSort f d f = (f, match d with asc => desc | desc => asc end).
Proof. unfold handleSort. now rewrite String.eqb_refl. Qed.

(** Every column of either table is a number on every record or a
    string on every record. *)
Lemma column_kind (f : string) (l : list Incident) :
  In f (IncidentsList.columns ++ IncidentsTable.columns) ->
  allNumbers f l \/ allStrings f l.
Proof.
  simpl. intros H.
  repeat (destruct H as [<-|H];
          [first [ left; intros a _; eexists; reflexivity
                 | right; intros a _; eexists; reflexivity ]|]).
  contradiction.
Qed.

Lemma column_uniform (f : string) (l : list Incident) :
  In f (IncidentsList.columns ++ IncidentsTable.columns) -> uniform f l.
Proof.
  intros H. destruct (column_kind f l H).
  - now apply OrderFacts.allNumbers_uniform.
  - now apply OrderFacts.allStrings_uniform.
Qed.

(** In every sort state the incidents list can reach, the pipeline
    returns. *)
Lemma list_returns (st : string * SortDirection)
    (searchTerm statusFilter priorityFilter countyFilter : string)
    (incidents : list Incident) :
  reachable IncidentsList.columns st ->
  exists out,
    IncidentsList.filteredAndSortedIncidents
      searchTerm statusFilter priorityFilter countyFilter
      (fst st) (snd st) incidents = Ok out.
Proof.
  intros Hst. eexists. apply ComparatorFacts.sort_compareFn.
  apply column_uniform.
  destruct (reachable_field _ _ Hst) as [->|H].
  - simpl. auto.
  - apply in_or_app. now left.
Qed.

(** The same for the dashboard table. *)
Lemma table_returns (st : string * SortDirection)
    (searchTerm statusFilter priorityFilter : string)
    (incidents : list Incident) :
  reachable IncidentsTable.columns st ->
  exists out,
    IncidentsTable.filteredAndSortedIncidents
      searchTerm statusFilter priorityFilter
      (fst st) (snd st) incidents = Ok out.
Proof.
  intros Hst. eexists. apply ComparatorFacts.sort_compareFn.
  apply column_uniform.
  destruct (reachable_field _ _ Hst) as [->|H].
  - simpl. auto.
  - apply in_or_app. now right.
Qed.

End SortStateFacts.

(** ** The filter *)

Section FilterFacts.

Variables searchTerm statusFilter priorityFilter countyFilter : string.


Lemma matchesSearch_term (incident : Incident) :
  searchTerm <> "" ->
  (IncidentsList.matchesSearch searchTerm incident = true <->
   JsString.containsIgnoringCase (description incident) searchTerm
   \/ JsString.containsIgnoringCase (location incident) searchTerm
   \/ JsString.containsIgnoringCase (county incident) searchTerm
   \/ JsString.containsIgnoringCase (_id incident) searchTerm).
Proof.
  intros Hne. unfold IncidentsList.matchesSearch.
  destruct (String.eqb_spec searchTerm "") as [|_]; [contradiction|].
  rewrite !orb_true_iff, !JsStringFacts.includes_ignoring_case. simpl.
  intuition discriminate.
Qed.

End FilterFacts.

(** ** The dashboard table *)

Module IncidentsTableFacts.

(** Its search looks at three attributes. *)
Lemma table_matchesSearch_term (searchTerm : string) (incident : Incident) :
  searchTerm <> "" ->
  (IncidentsTable.matchesSearch searchTerm incident = true <->
   JsString.containsIgnoringCase (description incident) searchTerm
   \/ JsString.containsIgnoringCase (location incident) searchTerm
   \/ JsString.containsIgnoringCase (county incident) searchTerm).
Proof.
  intros Hne. unfold IncidentsTable.matchesSearch.
  destruct (String.eqb_spec searchTerm "") as [|_]; [contradiction|].
  rewrite !orb_true_iff, !JsStringFacts.includes_ignoring_case. simpl.
  intuition discriminate.
Qed.

(** The identifier is searched by the incidents list only. *)
Lemma identifier_is_not_searched :
  IncidentsTable.matchesSearch "BZX" Samples.baringoRaid = false
  /\ IncidentsList.matchesSearch "BZX" Samples.baringoRaid = true.
Proof. split; reflexivity. Qed.

(** What passes the table's filter passes the list's filter with the
    same search term, status and priority and no county. *)
Lemma passes_list (searchTerm statusFilter priorityFilter : string)
    (incident : Incident) :
  IncidentsTable.passes searchTerm statusFilter priorityFilter incident
  = true ->
  IncidentsList.passes searchTerm statusFilter priorityFilter "" incident
  = true.
Proof.
  unfold IncidentsTable.passes, IncidentsList.passes,
    IncidentsTable.matchesSearch, IncidentsList.matchesSearch,
    IncidentsList.matchesCounty.
  rewrite !andb_true_iff, !orb_true_iff. simpl. tauto.
Qed.

(** An output of the table is a rearrangement of the records that pass
    its filter. *)
Lemma output_Permutation (searchTerm statusFilter priorityFilter : string)
    (f : string) (d : SortDirection) (incidents out : list Incident) :
  IncidentsTable.filteredAndSortedIncidents
    searchTerm statusFilter priorityFilter f d incidents = Ok out ->
  Permutation
    (filter (IncidentsTable.passes searchTerm statusFilter priorityFilter)
            incidents)
    out.
Proof. apply JsArrayFacts.sort_Permutation. Qed.

End IncidentsTableFacts.

(** ** The chart scale *)

Module TrendsChartFacts.
Import TrendsChart.

Lemma mathMax_from (xs : list Z) (a : Z) :
  fold_left
    (fun acc x => Some (match acc with None => x | Some m => Z.max m x end))
    xs (Some a)
  = Some (fold_left Z.max xs a).
Proof.
  revert a; induction xs as [|x rest IH]; intros a; simpl; auto.
Qed.

Lemma mathMax_cons (x : Z) (xs : list Z) :
  mathMax (x :: xs) = Some (fold_left Z.max xs x).
Proof. unfold mathMax. simpl. apply mathMax_from. Qed.

Lemma fold_max_bounds (xs : list Z) (a : Z) :
  a <= fold_left Z.max xs a
  /\ forall x, In x xs -> x <= fold_left Z.max xs a.
Proof.
  revert a; induction xs as [|y rest IH]; intros a; simpl.
  - split; [lia | contradiction].
  - destruct (IH (Z.max a y)) as [Ha Hx]. split; [lia|].
    intros x [<-|Hin]; [lia | auto].
Qed.

Lemma fold_max_attained (xs : list Z) (a : Z) :
  In (fold_left Z.max xs a) (a :: xs).
Proof.
  revert a; induction xs as [|y rest IH]; intros a; simpl; [auto|].
  destruct (IH (Z.max a y)) as [H|H]; [|auto].
  rewrite <- H. destruct (Z.max_spec a y) as [[_ ->]|[_ ->]]; auto.
Qed.

(** On a non-empty sequence [maxValue] is a number, bounds every count
    and is one of the counts. *)
Lemma maxValue_is_maximum (data : list TrendPoint) :
  data <> [] ->
  exists m,
    maxValue data = Some m
    /\ (forall p, In p data ->
          incidents p <= m /\ critical p <= m /\ resolved p <= m)
    /\ (exists p, In p data
                  /\ (m = incidents p \/ m = critical p \/ m = resolved p)).
Proof.
  destruct data as [|d rest]; [congruence|]. intros _.
  unfold maxValue. simpl map. rewrite mathMax_cons. fold pointMax.
  set (xs := map _ rest).
  pose proof (fold_max_bounds xs (pointMax d)) as [Hd Hxs].
  pose proof (fold_max_attained xs (pointMax d)) as Hat.
  set (m := fold_left Z.max xs (pointMax d)) in *.
  exists m. split; [reflexivity|]. split.
  - intros p [<-|Hp].
    + unfold pointMax in Hd. lia.
    + assert (H : pointMax p <= m).
      { apply Hxs. unfold xs. apply in_map_iff. exists p. auto. }
      unfold pointMax in H. lia.
  - assert (Hin : exists p, In p (d :: rest) /\ m = pointMax p).
    { destruct Hat as [H|H].
      - exists d. simpl. auto.
      - unfold xs in H. apply in_map_iff in H as [p [Hp Hin]].
        exists p. simpl. auto. }
    destruct Hin as [p [Hp Hmp]]. exists p. split; [exact Hp|].
    unfold pointMax in Hmp. lia.
Qed.

(** One bar: with [0 <= v <= m] the height is a number, the ratio
    [v / m] scaled by [chartHeight - 32], and the ratio lies in [0, 1];
    with [m = 0] no division takes place. *)
Lemma barHeight_bounds (m v : Z) :
  0 <= v <= m ->
  exists ratio : Q,
    barHeight (Some m) v = Some (ratio * inject_Z (chartHeight - 32))%Q
    /\ (0 <= ratio)%Q /\ (ratio <= 1)%Q
    /\ (0 < m -> divide v m = Some ratio)
    /\ (m = 0 -> ratio = 0%Q).
Proof.
  intros [Hv Hm]. unfold barHeight, divide.
  destruct (0 <? m) eqn:Hpos.
  - apply Z.ltb_lt in Hpos.
    destruct (Z.eqb_spec m 0) as [->|_]; [lia|].
    exists (inject_Z v / inject_Z m)%Q.
    assert (Hq : (0 < inject_Z m)%Q) by (unfold Qlt; simpl; lia).
    repeat split.
    + apply Qle_shift_div_l; [exact Hq|].
      rewrite Qmult_0_l. unfold Qle; simpl; lia.
    + apply Qle_shift_div_r; [exact Hq|].
      rewrite Qmult_1_l. rewrite <- Zle_Qle. exact Hm.
    + lia.
  - apply Z.ltb_ge in Hpos. exists 0%Q.
    repeat split; try discriminate; try lia.
Qed.

End TrendsChartFacts.

(** * The properties of the specification *)

Import Samples.

(** C1, as stated, fails: the code has no error for a sort field it does
    not know.  With the name "severity", which no record carries, the
    call on two records returns both of them, in their input order. *)
Lemma unknown_sort_field_returns_a_result :
  ~ In "severity" incidentKeys
  /\ "severity" <> "totalCasualties" /\ "severity" <> "totalLivestock"
  /\ IncidentsList.filteredAndSortedIncidents "" "" "" "" "severity" asc
       [turkanaRaid; baringoRaid]
     = Ok [turkanaRaid; baringoRaid].
Proof.
  repeat split; try discriminate.
  simpl. intuition discriminate.
Qed.

(** C1, amended.  When the sort field is neither an attribute of the
    record nor one of the two computed keys, every comparison answers 0
    and the call raises no error: in either direction it returns the
    records that pass the filter, in their input order.  The dashboard
    table does the same. *)
Theorem unknown_sort_field_keeps_input_order :
  forall (searchTerm statusFilter priorityFilter countyFilter : string)
         (sortField : string) (sortDirection : SortDirection)
         (incidents : list Incident),
    ~ In sortField incidentKeys ->
    sortField <> "totalCasualties" ->
    sortField <> "totalLivestock" ->
    (forall a b, compareFn sortField sortDirection a b = Ok 0)
    /\ IncidentsList.filteredAndSortedIncidents
         searchTerm statusFilter priorityFilter countyFilter
         sortField sortDirection incidents
       = Ok (filter (IncidentsList.passes searchTerm statusFilter
                       priorityFilter countyFilter) incidents)
    /\ IncidentsTable.filteredAndSortedIncidents
         searchTerm statusFilter priorityFilter
         sortField sortDirection incidents
       = Ok (filter (IncidentsTable.passes searchTerm statusFilter
                       priorityFilter) incidents).
Proof.
  intros st sf pf cf f d incidents Hk Hc Hl.
  assert (Habsent : forall a, sortKey f a = VUndefined)
    by (intros a; now apply IncidentFacts.sortKey_absent).
  split; [|split].
  - intros a b. now apply ComparatorFacts.compareFn_absent.
  - now apply ComparatorFacts.sort_absent.
  - now apply ComparatorFacts.sort_absent.
Qed.

Lemma unknown_sort_field_keeps_input_order_witness :
  ~ In "severity" incidentKeys
  /\ IncidentsList.filteredAndSortedIncidents "raid" "" "" "" "severity" desc
       [turkanaRaid; baringoRaid]
     = Ok (filter (IncidentsList.passes "raid" "" "" "")
                  [turkanaRaid; baringoRaid]).
Proof.
  assert (H : ~ In "severity" incidentKeys)
    by (simpl; intuition discriminate).
  split; [exact H|].
  apply (unknown_sort_field_keeps_input_order
           "raid" "" "" "" "severity" desc [turkanaRaid; baringoRaid] H);
    discriminate.
Defined.

(** C2, as stated, fails at one of the two searches it is about: the
    dashboard table does not look at the identifier.  The term "BZX"
    occurs, letter case ignored, in the identifier of a record and in no
    other of its attributes; the record passes the search of the
    incidents list and fails the search of the table. *)
Lemma table_search_leaves_out_the_identifier :
  "BZX" <> ""
  /\ JsString.containsIgnoringCase (_id baringoRaid) "BZX"
  /\ IncidentsList.matchesSearch "BZX" baringoRaid = true
  /\ IncidentsTable.matchesSearch "BZX" baringoRaid = false.
Proof.
  split; [discriminate|]. split; [|split; reflexivity].
  exists "k93", "bzx", "". split; reflexivity.
Qed.

(** C2, amended.  For a non-empty search term, a record passes the
    search constraint of the incidents list exactly when the term
    occurs, letter case ignored, in its description, its location, its
    county or its identifier; the identifier alone is enough.  It passes
    the search constraint of the dashboard table exactly when the term
    occurs in its description, its location or its county: the
    identifier is not looked at there, and a record that has the term in
    its identifier only does not pass. *)
Theorem search_matches_the_fields_of_each_table :
  forall (searchTerm : string) (incident : Incident),
    searchTerm <> "" ->
    (IncidentsList.matchesSearch searchTerm incident = true <->
     JsString.containsIgnoringCase (description incident) searchTerm
     \/ JsString.containsIgnoringCase (location incident) searchTerm
     \/ JsString.containsIgnoringCase (county incident) searchTerm
     \/ JsString.containsIgnoringCase (_id incident) searchTerm)
    /\ (JsString.containsIgnoringCase (_id incident) searchTerm ->
        IncidentsList.matchesSearch searchTerm incident = true)
    /\ (IncidentsTable.matchesSearch searchTerm incident = true <->
        JsString.containsIgnoringCase (description incident) searchTerm
        \/ JsString.containsIgnoringCase (location incident) searchTerm
        \/ JsString.containsIgnoringCase (county incident) searchTerm)
    /\ (~ JsString.containsIgnoringCase (description incident) searchTerm ->
        ~ JsString.containsIgnoringCase (location incident) searchTerm ->
        ~ JsString.containsIgnoringCase (county incident) searchTerm ->
        IncidentsTable.matchesSearch searchTerm incident = false).
Proof.
  intros searchTerm incident Hne.
  pose proof (matchesSearch_term searchTerm incident Hne) as HL.
  pose proof (IncidentsTableFacts.table_matchesSearch_term
                searchTerm incident Hne) as HT.
  split; [exact HL|]. split; [intros Hid; apply HL; auto|].
  split; [exact HT|]. intros Hd Hl Hc.
  destruct (IncidentsTable.matchesSearch searchTerm incident) eqn:E;
    [|reflexivity].
  exfalso. destruct (proj1 HT eq_refl) as [H|[H|H]]; auto.
Qed.

Lemma search_matches_the_fields_of_each_table_witness :
  "BZX" <> ""
  /\ IncidentsList.matchesSearch "BZX" baringoRaid = true
  /\ ~ JsString.containsIgnoringCase (description baringoRaid) "BZX".
Proof.
  pose proof (search_matches_the_fields_of_each_table "BZX" baringoRaid
                ltac:(discriminate)) as [_ [Hid [HT _]]].
  split; [discriminate|]. split.
  - apply Hid. exists "k93", "bzx", "". split; reflexivity.
  - intros Hd.
    assert (H : IncidentsTable.matchesSearch "BZX" baringoRaid = true)
      by (apply HT; now left).
    discriminate H.
Defined.

(** C3.  Whatever the filter and the sort, an output of the pipeline is
    drawn from the input: it is the subsequence of the input that the
    filter keeps, rearranged by the sort; so each output record is an
    input record, no record occurs more often in the output than in the
    input, and the output is no longer than the input.  The call does
    return whenever the sort attribute is a string on all the records
    that pass or on none of them, and so in every sort state that clicks
    on the column headers can reach. *)
Theorem output_is_drawn_from_input :
  forall (searchTerm statusFilter priorityFilter countyFilter : string)
         (sortField : string) (sortDirection : SortDirection)
         (incidents : list Incident),
    (uniform sortField
       (filter (IncidentsList.passes searchTerm statusFilter priorityFilter
                                     countyFilter) incidents) ->
     exists out,
       IncidentsList.filteredAndSortedIncidents
         searchTerm statusFilter priorityFilter countyFilter
         sortField sortDirection incidents = Ok out)
    /\ (reachable IncidentsList.columns (sortField, sortDirection) ->
        exists out,
          IncidentsList.filteredAndSortedIncidents
            searchTerm statusFilter priorityFilter countyFilter
            sortField sortDirection incidents = Ok out)
    /\ (forall out,
          IncidentsList.filteredAndSortedIncidents
            searchTerm statusFilter priorityFilter countyFilter
            sortField sortDirection incidents = Ok out ->
          (exists kept, subsequence kept incidents /\ Permutation kept out)
          /\ (forall x, In x out -> In x incidents)
          /\ (forall x,
                count_occ Incident_eq_dec out x
                <= count_occ Incident_eq_dec incidents x)%nat
          /\ (List.length out <= List.length incidents)%nat).
Proof.
  intros st sf pf cf f d incidents.
  set (passes := IncidentsList.passes st sf pf cf). split; [|split].
  - intros Hu. eexists. now apply ComparatorFacts.sort_compareFn.
  - intros Hst.
    exact (SortStateFacts.list_returns (f, d) st sf pf cf incidents Hst).
  - intros out Hrun.
    apply JsArrayFacts.sort_Permutation in Hrun. fold passes in Hrun.
    split; [|repeat split].
    + exists (filter passes incidents). split; [|exact Hrun].
      apply ListFacts.filter_subsequence.
    + intros x Hx. apply Permutation_sym in Hrun.
      apply (Permutation_in _ Hrun) in Hx. apply filter_In in Hx. tauto.
    + intros x.
      rewrite <- (proj1 (Permutation_count_occ Incident_eq_dec _ _) Hrun x).
      apply ListFacts.count_occ_filter_le.
    + rewrite <- (Permutation_length Hrun). apply ListFacts.filter_length.
Qed.

Lemma output_is_drawn_from_input_witness :
  IncidentsList.filteredAndSortedIncidents "" "resolved" "" "" "county" asc
    [turkanaRaid; baringoRaid; baringoRaid] = Ok [baringoRaid; baringoRaid]
  /\ (List.length [baringoRaid; baringoRaid]
      <= List.length [turkanaRaid; baringoRaid; baringoRaid])%nat.
Proof.
  split; [reflexivity|].
  apply (proj2 (proj2 (output_is_drawn_from_input
                         "" "resolved" "" "" "county" asc
                         [turkanaRaid; baringoRaid; baringoRaid]))
               [baringoRaid; baringoRaid] eq_refl).
Defined.



(** C5.  The comparator's key for "totalCasualties" is deaths + injuries
    + missing and its key for "totalLivestock" is cattle + goats + sheep
    + camels + other, compared by value; sorting by either key returns
    the records that pass the filter in the order of these sums; and a
    record with deaths 2, injuries 1, missing 0 comes before one with
    total 5 when ascending. *)
Theorem computed_sort_keys_are_the_sums :
  (forall d a b,
      compareFn "totalCasualties" d a b
      = Ok (numberOrder d
              (deaths (casualties a) + injuries (casualties a)
               + missing (casualties a))
              (deaths (casualties b) + injuries (casualties b)
               + missing (casualties b))))
  /\ (forall d a b,
        compareFn "totalLivestock" d a b
        = Ok (numberOrder d
                (cattle (livestockStolen a) + goats (livestockStolen a)
                 + sheep (livestockStolen a) + camels (livestockStolen a)
                 + other (livestockStolen a))
                (cattle (livestockStolen b) + goats (livestockStolen b)
                 + sheep (livestockStolen b) + camels (livestockStolen b)
                 + other (livestockStolen b))))
  /\ (forall searchTerm statusFilter priorityFilter countyFilter d incidents,
        exists out,
          IncidentsList.filteredAndSortedIncidents
            searchTerm statusFilter priorityFilter countyFilter
            "totalCasualties" d incidents = Ok out
          /\ Permutation
               (filter (IncidentsList.passes searchTerm statusFilter
                          priorityFilter countyFilter) incidents) out
          /\ StronglySorted
               (fun a b => ordered d (totalCasualties a) (totalCasualties b))
               out)
  /\ (forall searchTerm statusFilter priorityFilter countyFilter d incidents,
        exists out,
          IncidentsList.filteredAndSortedIncidents
            searchTerm statusFilter priorityFilter countyFilter
            "totalLivestock" d incidents = Ok out
          /\ Permutation
               (filter (IncidentsList.passes searchTerm statusFilter
                          priorityFilter countyFilter) incidents) out
          /\ StronglySorted
               (fun a b => ordered d (totalLivestock a) (totalLivestock b))
               out)
  /\ (casualties baringoRaid = {| deaths := 2; injuries := 1; missing := 0 |}
      /\ totalCasualties baringoRaid = 3
      /\ totalCasualties turkanaRaid = 5
      /\ IncidentsList.filteredAndSortedIncidents
           "" "" "" "" "totalCasualties" asc [turkanaRaid; baringoRaid]
         = Ok [baringoRaid; turkanaRaid]).
Proof.
  split; [intros d a b; now destruct d|].
  split; [intros d a b; now destruct d|].
  split; [|split].
  - intros st sf pf cf d incidents.
    apply (OrderFacts.sort_numbers "totalCasualties" d).
    intros a _. eexists. reflexivity.
  - intros st sf pf cf d incidents.
    apply (OrderFacts.sort_numbers "totalLivestock" d).
    intros a _. eexists. reflexivity.
  - repeat split.
Qed.

(** C6, as stated, fails.  The response time is an optional attribute:
    present on one record and absent on the other, the two keys differ,
    yet the comparator answers 0 in both directions and both calls return
    the input order, which is not its own reverse. *)
Lemma direction_flip_fails_on_an_absent_key :
  NoDup (map (comparedKey "responseTime") [turkanaRaid; baringoRaid])
  /\ IncidentsList.filteredAndSortedIncidents
       "" "" "" "" "responseTime" asc [turkanaRaid; baringoRaid]
     = Ok [turkanaRaid; baringoRaid]
  /\ IncidentsList.filteredAndSortedIncidents
       "" "" "" "" "responseTime" desc [turkanaRaid; baringoRaid]
     = Ok [turkanaRaid; baringoRaid]
  /\ [turkanaRaid; baringoRaid] <> rev [turkanaRaid; baringoRaid].
Proof.
  split; [|repeat split; discriminate].
  repeat constructor; simpl; intuition discriminate.
Qed.

(** C6, amended.  When the sort attribute is a number on every record,
    or a string on every record, and the compared keys (strings in lower
    case) are pairwise distinct, the ascending and the descending call on
    the same records and filter both return, and the descending output is
    the ascending output reversed.  Every column that the two tables let
    the user sort by is such an attribute. *)
Theorem direction_flip_reverses_the_output :
  forall (searchTerm statusFilter priorityFilter countyFilter : string)
         (sortField : string) (incidents : list Incident),
    allNumbers sortField incidents \/ allStrings sortField incidents
    \/ In sortField (IncidentsList.columns ++ IncidentsTable.columns) ->
    NoDup (map (comparedKey sortField) incidents) ->
    exists out,
      IncidentsList.filteredAndSortedIncidents
        searchTerm statusFilter priorityFilter countyFilter
        sortField asc incidents = Ok out
      /\ IncidentsList.filteredAndSortedIncidents
           searchTerm statusFilter priorityFilter countyFilter
           sortField desc incidents = Ok (rev out).
Proof.
  intros st sf pf cf f incidents Hkind Hdistinct.
  assert (Hkind' : allNumbers f incidents \/ allStrings f incidents).
  { destruct Hkind as [H|[H|H]]; auto.
    now apply SortStateFacts.column_kind. }
  clear Hkind. rename Hkind' into Hkind.
  unfold IncidentsList.filteredAndSortedIncidents.
  set (p := IncidentsList.passes st sf pf cf).
  assert (Hnodup : NoDup (map (comparedKey f) (filter p incidents)))
    by now apply ListFacts.NoDup_map_filter.
  assert (Hinj : forall a b, In a (filter p incidents) ->
                   In b (filter p incidents) ->
                   comparedKey f a = comparedKey f b -> a = b)
    by (intros a b; now apply ListFacts.NoDup_map_inj).
  destruct Hkind as [Hn|Hs].
  - apply (OrderFacts.allNumbers_filter f p) in Hn.
    exists (StableSort.sortBy
              (fun a b => leZ asc (numberKey f a)
                                             (numberKey f b))
              (filter p incidents)).
    rewrite !ComparatorFacts.sort_compareFn
      by now apply OrderFacts.allNumbers_uniform.
    rewrite !(JsArrayFacts.sortBy_ext _ _ _
                (OrderFacts.precedes_numbers f _ _ Hn)).
    split; [reflexivity|]. f_equal.
    apply (JsArrayFacts.sortBy_flip
             (fun a b => leZ asc (numberKey f a)
                                            (numberKey f b))).
    + intros a b. apply OrderFacts.leZ_total.
    + intros a b c. apply OrderFacts.leZ_trans.
    + intros a b Ha Hb Hab Hba. apply Hinj; auto.
      simpl in Hab, Hba. unfold numberKey in Hab, Hba.
      unfold comparedKey.
      destruct (Hn a Ha) as [n Hna], (Hn b Hb) as [m Hmb].
      rewrite Hna, Hmb in *. f_equal. lia.
  - apply (OrderFacts.allStrings_filter f p) in Hs.
    exists (StableSort.sortBy
              (fun a b => leS asc (stringKey f a)
                                             (stringKey f b))
              (filter p incidents)).
    rewrite !ComparatorFacts.sort_compareFn
      by now apply OrderFacts.allStrings_uniform.
    rewrite !(JsArrayFacts.sortBy_ext _ _ _
                (OrderFacts.precedes_strings f _ _ Hs)).
    split; [reflexivity|]. f_equal.
    apply (JsArrayFacts.sortBy_flip
             (fun a b => leS asc (stringKey f a)
                                            (stringKey f b))).
    + intros a b. apply OrderFacts.leS_total.
    + intros a b c. apply OrderFacts.leS_trans.
    + intros a b Ha Hb Hab Hba. apply Hinj; auto.
      simpl in Hab, Hba. unfold stringKey in Hab, Hba.
      unfold comparedKey.
      destruct (Hs a Ha) as [s Hsa], (Hs b Hb) as [t Htb].
      rewrite Hsa, Htb in *. f_equal. now apply String.leb_antisym.
Qed.

Lemma direction_flip_reverses_the_output_witness :
  exists out,
    IncidentsList.filteredAndSortedIncidents
      "" "" "" "" "incidentDate" asc [turkanaRaid; baringoRaid] = Ok out
    /\ IncidentsList.filteredAndSortedIncidents
         "" "" "" "" "incidentDate" desc [turkanaRaid; baringoRaid]
       = Ok (rev out).
Proof.
  apply (direction_flip_reverses_the_output
           "" "" "" "" "incidentDate" [turkanaRaid; baringoRaid]).
  - left. intros a [<-|[<-|[]]]; eexists; reflexivity.
  - repeat constructor; simpl; intuition discriminate.
Defined.

(** C7.  When the sort attribute is a string on both records, the
    comparator compares the two strings in lower case; on records that
    all carry a string there, the call returns the records that pass the
    filter in the order of the lower-cased strings; and the counties
    "turkana" and "Baringo", sorted ascending, come out as "Baringo",
    "turkana", since "baringo" is before "turkana". *)
Theorem string_fields_compare_in_lower_case :
  (forall f d a b s t,
      get a f = VString s -> get b f = VString t ->
      compareFn f d a b
      = Ok (stringOrder d (JsString.toLowerCase s) (JsString.toLowerCase t)))
  /\ (forall searchTerm statusFilter priorityFilter countyFilter f d
             incidents,
        (forall a, In a incidents -> exists s, get a f = VString s) ->
        exists out,
          IncidentsList.filteredAndSortedIncidents
            searchTerm statusFilter priorityFilter countyFilter
            f d incidents = Ok out
          /\ Permutation
               (filter (IncidentsList.passes searchTerm statusFilter
                          priorityFilter countyFilter) incidents) out
          /\ StronglySorted
               (fun a b =>
                  forall s t, get a f = VString s -> get b f = VString t ->
                    orderedStrings d (JsString.toLowerCase s)
                                     (JsString.toLowerCase t))
               out)
  /\ (county turkanaRaid = "turkana" /\ county baringoRaid = "Baringo"
      /\ String.ltb "baringo" "turkana" = true
      /\ IncidentsList.filteredAndSortedIncidents
           "" "" "" "" "county" asc [turkanaRaid; baringoRaid]
         = Ok [baringoRaid; turkanaRaid]).
Proof.
  split; [|split].
  - intros f d a b s t Ha Hb. rewrite ComparatorFacts.compareFn_sortKey.
    rewrite (IncidentFacts.get_string_sortKey _ _ _ Ha),
            (IncidentFacts.get_string_sortKey _ _ _ Hb).
    now destruct d.
  - intros st sf pf cf f d incidents Hstr.
    set (p := IncidentsList.passes st sf pf cf).
    assert (Hall : allStrings f (filter p incidents)).
    { intros a Ha. apply filter_In in Ha as [Ha _].
      destruct (Hstr a Ha) as [s Hs]. exists s.
      now apply IncidentFacts.get_string_sortKey. }
    destruct (OrderFacts.sort_strings f d _ Hall) as [out [Hout [Hp Hs]]].
    exists out. split; [exact Hout|]. split; [exact Hp|].
    eapply OrderFacts.StronglySorted_impl; [|exact Hs].
    intros a b _ _ Hab s t Ha Hb. unfold stringKey in Hab.
    now rewrite (IncidentFacts.get_string_sortKey _ _ _ Ha),
                (IncidentFacts.get_string_sortKey _ _ _ Hb) in Hab.
  - repeat split.
Qed.

Lemma string_fields_compare_in_lower_case_witness :
  compareFn "county" asc turkanaRaid baringoRaid
  = Ok (stringOrder asc "turkana" "baringo").
Proof.
  apply (proj1 string_fields_compare_in_lower_case
           "county" asc turkanaRaid baringoRaid "turkana" "Baringo");
    reflexivity.
Defined.

(** C8.  For a non-empty sequence of points with non-negative counts,
    [maxValue] is the largest of all the incidents, critical and
    resolved counts; every bar of the chart has a height, which is the
    ratio count / maxValue scaled by the drawing height, and the ratio
    lies between 0 and 1; when every count is 0, [maxValue] is 0 and
    every height is 0.  No height is the outcome of a division by
    zero. *)
Theorem chart_scale_is_bounded :
  forall data : list TrendsChart.TrendPoint,
    data <> [] ->
    (forall p, In p data ->
       0 <= TrendsChart.incidents p /\ 0 <= TrendsChart.critical p
       /\ 0 <= TrendsChart.resolved p) ->
    exists m,
      TrendsChart.maxValue data = Some m
      /\ TrendsChart.TrendsChart data
         = TrendsChart.Chart (Some m)
             (map (fun point =>
                     {| TrendsChart.incidentHeight :=
                          TrendsChart.barHeight (Some m)
                            (TrendsChart.incidents point);
                        TrendsChart.criticalHeight :=
                          TrendsChart.barHeight (Some m)
                            (TrendsChart.critical point);
                        TrendsChart.resolvedHeight :=
                          TrendsChart.barHeight (Some m)
                            (TrendsChart.resolved point) |})
                  data)
      /\ (forall p, In p data ->
            TrendsChart.incidents p <= m /\ TrendsChart.critical p <= m
            /\ TrendsChart.resolved p <= m)
      /\ (exists p, In p data
                    /\ (m = TrendsChart.incidents p
                        \/ m = TrendsChart.critical p
                        \/ m = TrendsChart.resolved p))
      /\ (forall p v,
            In p data ->
            v = TrendsChart.incidents p \/ v = TrendsChart.critical p
            \/ v = TrendsChart.resolved p ->
            exists ratio : Q,
              TrendsChart.barHeight (Some m) v
              = Some (ratio * inject_Z (TrendsChart.chartHeight - 32))%Q
              /\ (0 <= ratio)%Q /\ (ratio <= 1)%Q
              /\ (0 < m -> TrendsChart.divide v m = Some ratio)
              /\ (m = 0 -> ratio = 0%Q))
      /\ ((forall p, In p data ->
             TrendsChart.incidents p = 0 /\ TrendsChart.critical p = 0
             /\ TrendsChart.resolved p = 0) ->
          m = 0
          /\ forall v, TrendsChart.barHeight (Some m) v = Some 0%Q).
Proof.
  intros data Hne Hpos.
  destruct (TrendsChartFacts.maxValue_is_maximum data Hne)
    as [m [Hm [Hub [p0 [Hp0 Hat]]]]].
  exists m. split; [exact Hm|].
  split; [destruct data; [congruence|]; unfold TrendsChart.TrendsChart;
          now rewrite Hm|].
  split; [exact Hub|].
  split; [now exists p0|]. split.
  - intros p v Hp Hv. apply TrendsChartFacts.barHeight_bounds.
    specialize (Hpos p Hp). specialize (Hub p Hp).
    destruct Hv as [->|[->| ->]]; lia.
  - intros Hzero. assert (m = 0) as ->.
    { specialize (Hzero p0 Hp0). lia. }
    split; [reflexivity|]. intros v. reflexivity.
Qed.

Lemma chart_scale_is_bounded_witness :
  exists m,
    TrendsChart.maxValue
      [ {| TrendsChart.date := "2024-03-01"; TrendsChart.incidents := 4;
           TrendsChart.critical := 1; TrendsChart.resolved := 0 |};
        {| TrendsChart.date := "2024-03-02"; TrendsChart.incidents := 2;
           TrendsChart.critical := 0; TrendsChart.resolved := 6 |} ]
    = Some m
    /\ m = 6.
Proof.
  destruct (chart_scale_is_bounded
              [ {| TrendsChart.date := "2024-03-01";
                   TrendsChart.incidents := 4;
                   TrendsChart.critical := 1; TrendsChart.resolved := 0 |};
                {| TrendsChart.date := "2024-03-02";
                   TrendsChart.incidents := 2;
                   TrendsChart.critical := 0; TrendsChart.resolved := 6 |} ])
    as [m [Hm _]].
  - discriminate.
  - intros p [<-|[<-|[]]]; simpl; lia.
  - exists m. split; [exact Hm|].
    simpl in Hm. now injection Hm as <-.
Defined.

(** C9.  Two anonymous records that differ at most in the reporter name
    and phone give the same "Reporter Information" block: the note
    "Anonymous Report" and the verification mark, and neither a name nor
    a phone, whether the record carries them or not. *)
Theorem anonymous_reporter_is_not_shown :
  forall i1 i2 : Incident,
    sameButReporter i1 i2 ->
    isAnonymous i1 = true ->
    IncidentsList.reporterInformation i1 = IncidentsList.reporterInformation i2
    /\ IncidentsList.reporterInformation i1
       = [IncidentsList.AnonymousReport;
          IncidentsList.VerifiedMark (isVerified i1)].
Proof.
  intros i1 i2 Hsame Hanon.
  assert (Hanon2 : isAnonymous i2 = isAnonymous i1)
    by exact (f_equal isAnonymous (eq_sym Hsame)).
  assert (Hver : isVerified i2 = isVerified i1)
    by exact (f_equal isVerified (eq_sym Hsame)).
  unfold IncidentsList.reporterInformation.
  now rewrite Hanon2, Hver, Hanon.
Qed.

Lemma anonymous_reporter_is_not_shown_witness :
  reporterName turkanaRaid = Some "A. Ekal"
  /\ IncidentsList.reporterInformation turkanaRaid
     = IncidentsList.reporterInformation
         (setReporter turkanaRaid None (Some "0711111111")).
Proof.
  split; [reflexivity|].
  apply (anonymous_reporter_is_not_shown
           turkanaRaid (setReporter turkanaRaid None (Some "0711111111")));
    reflexivity.
Defined.

(** C10.  Sorting by priority, and likewise by status, compares the
    names of the enumeration values as strings: the priorities stand in
    the order critical, high, low, medium and the statuses in the order
    closed, investigating, reported, resolved, verified.  So in every
    output sorted ascending by priority each record of priority critical
    stands before each record of priority low. *)
Theorem priority_and_status_sort_alphabetically :
  (forall d a b,
      compareFn "priority" d a b
      = Ok (stringOrder d (priorityString (priority a))
                          (priorityString (priority b))))
  /\ (forall d a b,
        compareFn "priority" d a b
        = Ok (numberOrder d (priorityAlphabetical (priority a))
                            (priorityAlphabetical (priority b))))
  /\ (forall d a b,
        compareFn "status" d a b
        = Ok (stringOrder d (statusString (status a))
                            (statusString (status b))))
  /\ (forall d a b,
        compareFn "status" d a b
        = Ok (numberOrder d (statusAlphabetical (status a))
                            (statusAlphabetical (status b))))
  /\ (forall searchTerm statusFilter priorityFilter countyFilter incidents,
        exists out,
          IncidentsList.filteredAndSortedIncidents
            searchTerm statusFilter priorityFilter countyFilter
            "priority" asc incidents = Ok out
          /\ Permutation
               (filter (IncidentsList.passes searchTerm statusFilter
                          priorityFilter countyFilter) incidents) out
          /\ forall i j x y,
               nth_error out i = Some x -> nth_error out j = Some y ->
               priority x = critical -> priority y = low ->
               (i < j)%nat).
Proof.
  split; [|split; [|split; [|split]]].
  - intros d a b. rewrite ComparatorFacts.compareFn_sortKey.
    cbn. now destruct d, (priority a), (priority b).
  - intros d a b. rewrite ComparatorFacts.compareFn_sortKey.
    cbn. now destruct d, (priority a), (priority b).
  - intros d a b. rewrite ComparatorFacts.compareFn_sortKey.
    cbn. now destruct d, (status a), (status b).
  - intros d a b. rewrite ComparatorFacts.compareFn_sortKey.
    cbn. now destruct d, (status a), (status b).
  - intros st sf pf cf incidents.
    destruct (OrderFacts.sort_strings "priority" asc
                (filter (IncidentsList.passes st sf pf cf) incidents))
      as [out [Hout [Hp Hs]]].
    { intros a _. eexists. reflexivity. }
    exists out. split; [exact Hout|]. split; [exact Hp|].
    intros i j x y Hi Hj Hx Hy.
    destruct (Nat.lt_trichotomy i j) as [Hlt|[Heq|Hgt]]; [exact Hlt| |].
    + subst j. rewrite Hi in Hj. injection Hj as <-. congruence.
    + pose proof (JsArrayFacts.StronglySorted_nth _ _ _ _ _ _ Hs Hgt Hj Hi)
        as H.
      unfold stringKey in H. cbn in H. rewrite Hx, Hy in H.
      discriminate.
Qed.

(** * Further properties of the code *)

(** ** The comparator *)

Module ComparatorAlgebra.

Lemma lessThan_irrefl (x : value) : JsValue.lessThan x x = false.
Proof.
  destruct (JsValue.lessThan x x) eqn:H; [|reflexivity].
  now rewrite (ComparatorFacts.lessThan_asym _ _ H) in H.
Qed.

Lemma threeWay_values (d : SortDirection) (x y : value) :
  threeWay d x y = -1 \/ threeWay d x y = 0 \/ threeWay d x y = 1.
Proof.
  unfold threeWay, JsValue.greaterThan.
  destruct d, (JsValue.lessThan x y), (JsValue.lessThan y x); auto.
Qed.

Lemma threeWay_swap (d : SortDirection) (x y : value) :
  threeWay d y x = - threeWay d x y.
Proof.
  unfold threeWay, JsValue.greaterThan.
  destruct d; destruct (JsValue.lessThan x y) eqn:Hxy;
    try rewrite (ComparatorFacts.lessThan_asym _ _ Hxy);
    try reflexivity; now destruct (JsValue.lessThan y x).
Qed.

Lemma threeWay_opposite (d : SortDirection) (x y : value) :
  threeWay (opposite d) x y = - threeWay d x y.
Proof.
  unfold threeWay, JsValue.greaterThan.
  destruct d; simpl; destruct (JsValue.lessThan x y) eqn:Hxy;
    try rewrite (ComparatorFacts.lessThan_asym _ _ Hxy);
    try reflexivity; now destruct (JsValue.lessThan y x).
Qed.

(** What an answer of the comparator is. *)
Lemma compareFn_Ok_inv (f : string) (d : SortDirection) (a b : Incident)
    (z : Z) :
  compareFn f d a b = Ok z ->
  exists x y,
    z = threeWay d x y
    /\ (forall d', compareFn f d' a b = Ok (threeWay d' x y))
    /\ (forall d' z', compareFn f d' b a = Ok z' -> z' = threeWay d' y x).
Proof.
  rewrite ComparatorFacts.compareFn_sortKey.
  destruct (sortKey f a) eqn:Ha, (sortKey f b) eqn:Hb; intros H;
    try discriminate; injection H as <-;
    eexists; eexists; (split; [reflexivity|]); split;
    intros; rewrite ?ComparatorFacts.compareFn_sortKey, ?Ha, ?Hb in *;
    try reflexivity; try congruence.
Qed.

(** The comparator throws when the first record holds a string and the
    second does not; then the field is an optional string attribute that
    the second record lacks. *)
Lemma compareFn_Throw_inv (f : string) (d : SortDirection) (a b : Incident)
    (e : exn) :
  compareFn f d a b = Throw e ->
  exists s, get a f = VString s /\ get b f = VUndefined.
Proof.
  rewrite ComparatorFacts.compareFn_sortKey.
  pose proof (IncidentFacts.sortKey_same_type f a b) as Hsame.
  unfold sortKey in *.
  destruct (f =? "totalCasualties")%string; [discriminate|].
  destruct (f =? "totalLivestock")%string; [discriminate|].
  destruct (get a f) eqn:Ha, (get b f) eqn:Hb; intros H;
    try discriminate; simpl in Hsame;
    try (destruct Hsame as [Hs|[Hs|Hs]]; discriminate);
    eauto.
Qed.

Lemma optional_attribute_of_get (f : string) (a b : Incident) (s : string) :
  get a f = VString s -> get b f = VUndefined ->
  exists attribute,
    In (f, attribute) optionalStringAttributes
    /\ attribute a = Some s /\ attribute b = None.
Proof.
  unfold get, properties, lookup, optional.
  repeat match goal with
         | |- context [if (?name =? f)%string then _ else _] =>
             destruct (String.eqb_spec name f) as [<-|_];
             [ try (intros _ Hb; discriminate Hb);
               try (intros Ha _; discriminate Ha) | ]
         end;
    try (intros Ha; discriminate Ha);
    match goal with
    | |- match ?oa with Some _ => _ | None => _ end = _ ->
         match ?ob with Some _ => _ | None => _ end = _ -> _ =>
        destruct oa eqn:Ea, ob eqn:Eb; intros Ha Hb;
        try discriminate; injection Ha as ->
    end;
    eexists; (split; [simpl; eauto 6|]); auto.
Qed.

End ComparatorAlgebra.

(** X1.  An answer of the comparator is -1, 0 or 1; with the other
    direction the comparator answers the opposite number; and with the
    two records exchanged it answers the opposite number too, when it
    answers at all. *)
Theorem comparator_answers_are_opposite :
  forall (f : string) (d : SortDirection) (a b : Incident) (z : Z),
    compareFn f d a b = Ok z ->
    (z = -1 \/ z = 0 \/ z = 1)
    /\ compareFn f (opposite d) a b = Ok (- z)
    /\ (forall z', compareFn f d b a = Ok z' -> z' = - z).
Proof.
  intros f d a b z H.
  destruct (ComparatorAlgebra.compareFn_Ok_inv _ _ _ _ _ H)
    as [x [y [-> [Hd Hswap]]]].
  split; [apply ComparatorAlgebra.threeWay_values|]. split.
  - rewrite Hd. f_equal. apply ComparatorAlgebra.threeWay_opposite.
  - intros z' Hz'. rewrite (Hswap _ _ Hz').
    apply ComparatorAlgebra.threeWay_swap.
Qed.

Lemma comparator_answers_are_opposite_witness :
  compareFn "incidentDate" asc Samples.turkanaRaid Samples.baringoRaid
  = Ok (-1)
  /\ compareFn "incidentDate" desc Samples.turkanaRaid Samples.baringoRaid
     = Ok (- -1).
Proof.
  split; [reflexivity|].
  exact (proj1 (proj2 (comparator_answers_are_opposite
                         "incidentDate" asc Samples.turkanaRaid
                         Samples.baringoRaid (-1) eq_refl))).
Defined.

(** X2.  The comparator throws a TypeError exactly when the sort field
    is one of the four optional string attributes (subcounty,
    reporterName, reporterPhone, actionsTaken), the first record carries
    it and the second lacks it.  On every other field, and on these four
    with the records the other way round, it answers. *)
Theorem comparator_throws_on_a_missing_optional_string :
  forall (f : string) (d : SortDirection) (a b : Incident),
    compareFn f d a b = Throw TypeError <->
    exists attribute s,
      In (f, attribute) optionalStringAttributes
      /\ attribute a = Some s /\ attribute b = None.
Proof.
  intros f d a b. split.
  - intros H.
    destruct (ComparatorAlgebra.compareFn_Throw_inv _ _ _ _ _ H)
      as [s [Ha Hb]].
    destruct (ComparatorAlgebra.optional_attribute_of_get _ _ _ _ Ha Hb)
      as [attribute Hattr].
    exists attribute, s. exact Hattr.
  - intros [attribute [s [Hin [Ha Hb]]]].
    rewrite ComparatorFacts.compareFn_sortKey.
    simpl in Hin.
    destruct Hin as [Hin|[Hin|[Hin|[Hin|[]]]]]; injection Hin as <- <-;
      cbn; unfold optional; now rewrite Ha, Hb.
Qed.

(** ** Sorting by a column *)

Module ColumnSort.

(** The sort by a column leaves the rows in the order of the
    comparator. *)
Lemma sortBy_precedes_sorted (f : string) (d : SortDirection)
    (l : list Incident) :
  allNumbers f l \/ allStrings f l ->
  StronglySorted (fun a b => precedes f d a b = true)
                 (StableSort.sortBy (precedes f d) l).
Proof.
  intros [H|H].
  - rewrite (JsArrayFacts.sortBy_ext _ _ _
               (OrderFacts.precedes_numbers f d l H)).
    eapply OrderFacts.StronglySorted_impl;
      [|apply JsArrayFacts.sortBy_sorted with
          (le := fun a b => leZ d (numberKey f a) (numberKey f b))].
    + intros a b Ha Hb Hab. apply JsArrayFacts.sortBy_In in Ha, Hb.
      now rewrite (OrderFacts.precedes_numbers f d l H a b Ha Hb).
    + intros a b. apply OrderFacts.leZ_total.
    + intros a b c. apply OrderFacts.leZ_trans.
  - rewrite (JsArrayFacts.sortBy_ext _ _ _
               (OrderFacts.precedes_strings f d l H)).
    eapply OrderFacts.StronglySorted_impl;
      [|apply JsArrayFacts.sortBy_sorted with
          (le := fun a b => leS d (stringKey f a) (stringKey f b))].
    + intros a b Ha Hb Hab. apply JsArrayFacts.sortBy_In in Ha, Hb.
      now rewrite (OrderFacts.precedes_strings f d l H a b Ha Hb).
    + intros a b. apply OrderFacts.leS_total.
    + intros a b c. apply OrderFacts.leS_trans.
Qed.

Lemma kind_uniform (f : string) (l : list Incident) :
  allNumbers f l \/ allStrings f l -> uniform f l.
Proof.
  intros [H|H];
    [now apply OrderFacts.allNumbers_uniform
    |now apply OrderFacts.allStrings_uniform].
Qed.

Lemma leZ_opposite (d : SortDirection) (x y : Z) :
  leZ (opposite d) x y = leZ d y x.
Proof. now destruct d. Qed.

Lemma leS_opposite (d : SortDirection) (s t : string) :
  leS (opposite d) s t = leS d t s.
Proof. now destruct d. Qed.

(** With pairwise distinct keys, the sort in the other direction is the
    reversed sort. *)
Lemma sortBy_opposite (f : string) (d : SortDirection) (l : list Incident) :
  allNumbers f l \/ allStrings f l ->
  NoDup (map (comparedKey f) l) ->
  StableSort.sortBy (precedes f (opposite d)) l
  = rev (StableSort.sortBy (precedes f d) l).
Proof.
  intros Hkind Hdistinct.
  assert (Hinj : forall a b, In a l -> In b l ->
                   comparedKey f a = comparedKey f b -> a = b)
    by (intros a b; now apply ListFacts.NoDup_map_inj).
  destruct Hkind as [Hn|Hs].
  - rewrite !(JsArrayFacts.sortBy_ext _ _ _
                (OrderFacts.precedes_numbers f _ l Hn)).
    rewrite (JsArrayFacts.sortBy_ext
               (fun a b => leZ (opposite d) (numberKey f a) (numberKey f b))
               (fun a b => leZ d (numberKey f b) (numberKey f a)))
      by (intros; apply leZ_opposite).
    apply (JsArrayFacts.sortBy_flip
             (fun a b => leZ d (numberKey f a) (numberKey f b))).
    + intros a b. apply OrderFacts.leZ_total.
    + intros a b c. apply OrderFacts.leZ_trans.
    + intros a b Ha Hb Hab Hba. apply Hinj; auto.
      unfold numberKey in Hab, Hba. unfold comparedKey.
      destruct (Hn a Ha) as [n Hna], (Hn b Hb) as [m Hmb].
      rewrite Hna, Hmb in *. f_equal. destruct d; simpl in *; lia.
  - rewrite !(JsArrayFacts.sortBy_ext _ _ _
                (OrderFacts.precedes_strings f _ l Hs)).
    rewrite (JsArrayFacts.sortBy_ext
               (fun a b => leS (opposite d) (stringKey f a) (stringKey f b))
               (fun a b => leS d (stringKey f b) (stringKey f a)))
      by (intros; apply leS_opposite).
    apply (JsArrayFacts.sortBy_flip
             (fun a b => leS d (stringKey f a) (stringKey f b))).
    + intros a b. apply OrderFacts.leS_total.
    + intros a b c. apply OrderFacts.leS_trans.
    + intros a b Ha Hb Hab Hba. apply Hinj; auto.
      unfold stringKey in Hab, Hba. unfold comparedKey.
      destruct (Hs a Ha) as [s Hsa], (Hs b Hb) as [t Htb].
      rewrite Hsa, Htb in *. f_equal.
      destruct d; simpl in *; now apply String.leb_antisym.
Qed.

(** The sort field of a reachable state is a column. *)
Lemma reachable_column (columns : list string)
    (st : string * SortDirection) :
  In "incidentDate" columns -> reachable columns st -> In (fst st) columns.
Proof.
  intros Hdate Hst.
  destruct (SortStateFacts.reachable_field _ _ Hst) as [->|H]; auto.
Qed.

Lemma list_column_kind (f : string) (l : list Incident) :
  In f IncidentsList.columns -> allNumbers f l \/ allStrings f l.
Proof.
  intros H. apply SortStateFacts.column_kind. apply in_or_app. now left.
Qed.

Lemma table_column_kind (f : string) (l : list Incident) :
  In f IncidentsTable.columns -> allNumbers f l \/ allStrings f l.
Proof.
  intros H. apply SortStateFacts.column_kind. apply in_or_app. now right.
Qed.

(** The whole outcome of a sort by a column. *)
Lemma sort_column (f : string) (d : SortDirection) (l : list Incident) :
  allNumbers f l \/ allStrings f l ->
  JsArray.sort (compareFn f d) l = Ok (StableSort.sortBy (precedes f d) l).
Proof.
  intros H. apply ComparatorFacts.sort_compareFn. now apply kind_uniform.
Qed.

End ColumnSort.

(** X3.  In every sort state that clicks on the column headers can
    reach, the pipeline of the incidents list returns: its output is the
    records that pass the filter, rearranged so that no row stands after
    a row that the comparator puts strictly behind it.  The same holds of
    the dashboard table. *)
Theorem reachable_sort_states_order_the_rows :
  forall (st : string * SortDirection)
         (searchTerm statusFilter priorityFilter countyFilter : string)
         (incidents : list Incident),
    (reachable IncidentsList.columns st ->
     exists out,
       IncidentsList.filteredAndSortedIncidents
         searchTerm statusFilter priorityFilter countyFilter
         (fst st) (snd st) incidents = Ok out
       /\ Permutation
            (filter (IncidentsList.passes searchTerm statusFilter
                       priorityFilter countyFilter) incidents) out
       /\ StronglySorted
            (fun a b => precedes (fst st) (snd st) a b = true) out)
    /\ (reachable IncidentsTable.columns st ->
        exists out,
          IncidentsTable.filteredAndSortedIncidents
            searchTerm statusFilter priorityFilter
            (fst st) (snd st) incidents = Ok out
          /\ Permutation
               (filter (IncidentsTable.passes searchTerm statusFilter
                          priorityFilter) incidents) out
          /\ StronglySorted
               (fun a b => precedes (fst st) (snd st) a b = true) out).
Proof.
  intros st t sf pf cf incidents. split; intros Hst.
  - assert (Hkind := ColumnSort.list_column_kind (fst st)
                       (filter (IncidentsList.passes t sf pf cf) incidents)
                       (ColumnSort.reachable_column IncidentsList.columns st
                          ltac:(simpl; auto) Hst)).
    eexists. split; [now apply ColumnSort.sort_column|].
    split; [apply JsArrayFacts.sortBy_Permutation|].
    now apply ColumnSort.sortBy_precedes_sorted.
  - assert (Hkind := ColumnSort.table_column_kind (fst st)
                       (filter (IncidentsTable.passes t sf pf) incidents)
                       (ColumnSort.reachable_column IncidentsTable.columns st
                          ltac:(simpl; auto) Hst)).
    eexists. split; [now apply ColumnSort.sort_column|].
    split; [apply JsArrayFacts.sortBy_Permutation|].
    now apply ColumnSort.sortBy_precedes_sorted.
Qed.

Lemma reachable_sort_states_order_the_rows_witness :
  exists out,
    IncidentsList.filteredAndSortedIncidents "" "" "" "" "location" desc
      [Samples.turkanaRaid; Samples.baringoRaid] = Ok out
    /\ Permutation
         (filter (IncidentsList.passes "" "" "" "")
                 [Samples.turkanaRaid; Samples.baringoRaid]) out
    /\ StronglySorted (fun a b => precedes "location" desc a b = true) out.
Proof.
  apply (proj1 (reachable_sort_states_order_the_rows
                  ("location", desc) "" "" "" ""
                  [Samples.turkanaRaid; Samples.baringoRaid])).
  apply (reachable_click IncidentsList.columns "incidentDate" desc
           "location" (reachable_initial _)).
  simpl. auto.
Defined.

(** X4.  In the incidents list, when the compared keys of the records
    are pairwise distinct, a click on the header of the column that is
    the sort field reverses the rows. *)
Theorem click_on_the_sort_column_reverses_the_rows :
  forall (searchTerm statusFilter priorityFilter countyFilter : string)
         (f : string) (d : SortDirection) (incidents out : list Incident),
    In f IncidentsList.columns ->
    NoDup (map (comparedKey f) incidents) ->
    IncidentsList.filteredAndSortedIncidents
      searchTerm statusFilter priorityFilter countyFilter f d incidents
    = Ok out ->
    IncidentsList.filteredAndSortedIncidents
      searchTerm statusFilter priorityFilter countyFilter
      (fst (handleSort f d f)) (snd (handleSort f d f)) incidents
    = Ok (rev out).
Proof.
  intros t sf pf cf f d incidents out Hcol Hdistinct.
  unfold IncidentsList.filteredAndSortedIncidents.
  set (l := filter (IncidentsList.passes t sf pf cf) incidents).
  assert (Hkind := ColumnSort.list_column_kind f l Hcol).
  assert (Hnodup : NoDup (map (comparedKey f) l))
    by now apply ListFacts.NoDup_map_filter.
  rewrite SortStateFacts.handleSort_twice. cbn [fst snd].
  rewrite !ColumnSort.sort_column by assumption.
  intros H; injection H as <-. f_equal.
  now apply (ColumnSort.sortBy_opposite f d l).
Qed.

Lemma click_on_the_sort_column_reverses_the_rows_witness :
  IncidentsList.filteredAndSortedIncidents "" "" "" "" "_id" asc
    [Samples.baringoRaid; Samples.turkanaRaid]
  = Ok (rev [Samples.baringoRaid; Samples.turkanaRaid]).
Proof.
  apply (click_on_the_sort_column_reverses_the_rows
           "" "" "" "" "_id" desc
           [Samples.baringoRaid; Samples.turkanaRaid]
           [Samples.baringoRaid; Samples.turkanaRaid]).
  - simpl. auto.
  - repeat constructor; simpl; intuition discriminate.
  - reflexivity.
Defined.

(** X5.  In every sort state that clicks can reach, exactly one column
    header of the table shows an arrow, the others the double arrow; the
    arrow is on the sort field and points up exactly when the direction
    is ascending.  This holds of the incidents list and of the dashboard
    table. *)
Theorem one_column_header_shows_the_arrow :
  forall (columns : list string) (st : string * SortDirection),
    columns = IncidentsList.columns \/ columns = IncidentsTable.columns ->
    reachable columns st ->
    List.length
      (filter (fun c => isArrow (SortIcon (fst st) (snd st) c)) columns)
    = 1%nat
    /\ (forall c, In c columns ->
          isArrow (SortIcon (fst st) (snd st) c) = true -> c = fst st)
    /\ (SortIcon (fst st) (snd st) (fst st) = ArrowUp <-> snd st = asc).
Proof.
  intros columns [f d] Hcols Hst.
  assert (Hin : In f columns).
  { apply (ColumnSort.reachable_column columns (f, d)); [|exact Hst].
    destruct Hcols as [->| ->]; simpl; auto. }
  cbn [fst snd]. split; [|split].
  - destruct Hcols as [->| ->]; simpl in Hin;
      repeat (destruct Hin as [<-|Hin]; [now destruct d|]);
      contradiction.
  - intros c _. unfold SortIcon.
    destruct (String.eqb_spec f c) as [->|_]; [reflexivity|discriminate].
  - unfold SortIcon. rewrite String.eqb_refl. simpl.
    destruct d; split; congruence.
Qed.

Lemma one_column_header_shows_the_arrow_witness :
  List.length
    (filter (fun c => isArrow (SortIcon "priority" desc c))
            IncidentsTable.columns)
  = 1%nat.
Proof.
  apply (proj1 (one_column_header_shows_the_arrow
                  IncidentsTable.columns ("priority", desc)
                  (or_intror eq_refl)
                  (reachable_click IncidentsTable.columns
                     "incidentDate" desc "priority"
                     (reachable_initial _)
                     ltac:(simpl; auto)))).
Defined.

(** X6.  A click on a column makes it the sort field.  From any state,
    the first click on a column other than the sort field selects the
    descending direction, and the clicks that follow on the same column
    alternate between ascending and descending: the third click gives
    the state of the first. *)
Theorem clicks_on_a_column_alternate :
  forall (f : string) (d : SortDirection) (field : string),
    let first := handleSort f d field in
    let second := handleSort (fst first) (snd first) field in
    let third := handleSort (fst second) (snd second) field in
    fst first = field
    /\ (f <> field -> first = (field, desc))
    /\ second = (field, opposite (snd first))
    /\ third = first.
Proof.
  intros f d field. unfold handleSort.
  destruct (String.eqb_spec f field) as [->|Hne]; cbn [fst snd];
    rewrite !String.eqb_refl; cbn [fst snd]; repeat split;
    try congruence; now destruct d.
Qed.

(** ** Searching and filtering *)

Module FilterAlgebra.
Import JsString.

Lemma append_assoc (u v w : string) :
  ((u ++ v) ++ w)%string = (u ++ v ++ w)%string.
Proof. induction u as [|c u IH]; simpl; congruence. Qed.

Lemma substringOf_trans (s t u : string) :
  substringOf s t -> substringOf t u -> substringOf s u.
Proof.
  intros [p [q ->]] [p' [q' ->]].
  exists (p' ++ p)%string, (q ++ q')%string.
  now rewrite !append_assoc.
Qed.

Lemma includes_trans (s t u : string) :
  includes s t = true -> includes t u = true -> includes s u = true.
Proof.
  rewrite !JsStringFacts.includes_spec. intros Hst Htu.
  eapply substringOf_trans; eauto.
Qed.

Lemma toLowerCase_empty (t t' : string) :
  toLowerCase t = toLowerCase t' -> (t =? "")%string = (t' =? "")%string.
Proof. destruct t, t'; simpl; intros H; try discriminate; reflexivity. Qed.

Lemma includes_empty (t : string) :
  includes EmptyString t = true -> t = EmptyString.
Proof. destruct t; simpl; [reflexivity | discriminate]. Qed.

Lemma filter_all {A : Type} (p : A -> bool) (l : list A) :
  (forall x, In x l -> p x = true) -> filter p l = l.
Proof.
  induction l as [|x rest IH]; intros H; simpl; [reflexivity|].
  rewrite (H x) by (simpl; auto). f_equal. apply IH.
  intros y Hy. apply H. simpl; auto.
Qed.

Lemma filter_narrowed {A : Type} (p q : A -> bool) (l : list A) :
  (forall x, p x = true -> q x = true) ->
  filter p (filter q l) = filter p l.
Proof.
  intros H. induction l as [|x rest IH]; simpl; [reflexivity|].
  destruct (q x) eqn:Hq; simpl; rewrite IH; [reflexivity|].
  destruct (p x) eqn:Hp; [|reflexivity].
  rewrite (H x Hp) in Hq. discriminate.
Qed.

(** The sort of the code never lets an item pass another one of the
    same class, where the comparator does not answer a positive number
    within the class. *)
Section Classes.

Context {A : Type}.
Variable comparefn : A -> A -> result Z.
Variable P : A -> bool.
Hypothesis within :
  forall x y order, P x = true -> P y = true ->
    comparefn x y = Ok order -> (order <=? 0) = true.

Lemma insert_keeps_class (x : A) (sorted out : list A) :
  JsArray.insert comparefn x sorted = Ok out ->
  filter P out = filter P (x :: sorted).
Proof.
  revert out; induction sorted as [|y rest IH]; intros out;
    cbn [JsArray.insert].
  - intros H; now injection H as <-.
  - intros H. apply bind_Ok_inv in H as [order [Horder H]].
    destruct (order <=? 0) eqn:Hle.
    + now injection H as <-.
    + apply bind_Ok_inv in H as [rest' [Hrest H]]. injection H as <-.
      cbn [filter] in *. rewrite (IH _ Hrest). cbn [filter].
      destruct (P x) eqn:Hx, (P y) eqn:Hy; try reflexivity.
      rewrite (within x y order Hx Hy Horder) in Hle. discriminate.
Qed.

Lemma sort_keeps_class (l out : list A) :
  JsArray.sort comparefn l = Ok out -> filter P out = filter P l.
Proof.
  revert out; induction l as [|x rest IH]; intros out; cbn [JsArray.sort].
  - intros H; now injection H as <-.
  - intros H. apply bind_Ok_inv in H as [sorted [Hsorted H]].
    rewrite (insert_keeps_class _ _ _ H). cbn [filter].
    now rewrite (IH _ Hsorted).
Qed.

End Classes.

Lemma isString_comparedKey (f : string) (a : Incident) :
  isString (comparedKey f a) = isString (sortKey f a).
Proof. unfold comparedKey. now destruct (sortKey f a). Qed.

Lemma compareFn_same_key (f : string) (d : SortDirection) (k : value)
    (a b : Incident) (order : Z) :
  hasKey f k a = true -> hasKey f k b = true ->
  compareFn f d a b = Ok order -> (order <=? 0) = true.
Proof.
  unfold hasKey.
  destruct (value_eq_dec (comparedKey f a) k) as [Ha|]; [|discriminate].
  destruct (value_eq_dec (comparedKey f b) k) as [Hb|]; [|discriminate].
  intros _ _.
  rewrite ComparatorFacts.compareFn_Ok
    by (rewrite <- !isString_comparedKey; congruence).
  intros H; injection H as <-. rewrite Ha, Hb.
  rewrite ComparatorFacts.threeWay_sign.
  destruct d; simpl; now rewrite ComparatorAlgebra.lessThan_irrefl.
Qed.

End FilterAlgebra.

(** X7.  The search does not depend on the letter case of the term: two
    terms that are equal in lower case select the same records, in the
    incidents list and in the dashboard table. *)
Theorem search_ignores_the_case_of_the_term :
  forall (term term' : string) (incident : Incident),
    JsString.toLowerCase term = JsString.toLowerCase term' ->
    IncidentsList.matchesSearch term incident
    = IncidentsList.matchesSearch term' incident
    /\ IncidentsTable.matchesSearch term incident
       = IncidentsTable.matchesSearch term' incident.
Proof.
  intros term term' incident H.
  unfold IncidentsList.matchesSearch, IncidentsTable.matchesSearch.
  now rewrite H, (FilterAlgebra.toLowerCase_empty _ _ H).
Qed.

Lemma search_ignores_the_case_of_the_term_witness :
  IncidentsList.matchesSearch "MARIGAT" Samples.baringoRaid
  = IncidentsList.matchesSearch "mArIgAt" Samples.baringoRaid.
Proof.
  exact (proj1 (search_ignores_the_case_of_the_term
                  "MARIGAT" "mArIgAt" Samples.baringoRaid eq_refl)).
Defined.

(** X8.  Typing more never adds rows: when a term occurs, letter case
    ignored, inside a longer term, every record that passes the filter
    with the longer term passes it with the shorter one, and the filtered
    list of the longer term is no longer.  This holds of both tables. *)
Theorem extending_the_search_term_narrows :
  forall (term longer statusFilter priorityFilter countyFilter : string)
         (incidents : list Incident),
    JsString.containsIgnoringCase longer term ->
    (forall incident,
       IncidentsList.passes longer statusFilter priorityFilter countyFilter
                            incident = true ->
       IncidentsList.passes term statusFilter priorityFilter countyFilter
                            incident = true)
    /\ (forall incident,
          IncidentsTable.passes longer statusFilter priorityFilter incident
          = true ->
          IncidentsTable.passes term statusFilter priorityFilter incident
          = true)
    /\ (List.length
          (filter (IncidentsList.passes longer statusFilter priorityFilter
                                        countyFilter) incidents)
        <= List.length
             (filter (IncidentsList.passes term statusFilter priorityFilter
                                           countyFilter) incidents))%nat.
Proof.
  intros term longer sf pf cf incidents Hin.
  apply (proj2 (JsStringFacts.includes_ignoring_case _ _)) in Hin.
  assert (Hempty : longer = "" -> term = "").
  { intros ->. change (JsString.toLowerCase "") with EmptyString in Hin.
    apply FilterAlgebra.includes_empty in Hin.
    destruct term; [reflexivity | simpl in Hin; discriminate]. }
  assert (Hincl : forall text,
            JsString.includes text (JsString.toLowerCase longer) = true ->
            JsString.includes text (JsString.toLowerCase term) = true).
  { intros text Htext. eapply FilterAlgebra.includes_trans; eauto. }
  assert (Hlist : forall incident,
            IncidentsList.passes longer sf pf cf incident = true ->
            IncidentsList.passes term sf pf cf incident = true).
  { intros incident.
    unfold IncidentsList.passes, IncidentsList.matchesSearch.
    destruct (String.eqb_spec longer "") as [Hl|_].
    - rewrite (Hempty Hl). simpl. rewrite !andb_true_iff. tauto.
    - simpl. rewrite !andb_true_iff, !orb_true_iff.
      intros [[[H Hs] Hp] Hc]. repeat split; auto.
      destruct H as [[[H|H]|H]|H]; apply Hincl in H; tauto. }
  split; [exact Hlist|]. split.
  - intros incident.
    unfold IncidentsTable.passes, IncidentsTable.matchesSearch.
    destruct (String.eqb_spec longer "") as [Hl|_].
    + rewrite (Hempty Hl). simpl. rewrite !andb_true_iff. tauto.
    + simpl. rewrite !andb_true_iff, !orb_true_iff.
      intros [[H Hs] Hp]. repeat split; auto.
      destruct H as [[H|H]|H]; apply Hincl in H; tauto.
  - apply ListFacts.filter_length_le. intros x _. apply Hlist.
Qed.

Lemma extending_the_search_term_narrows_witness :
  JsString.containsIgnoringCase "MARIGAT" "Ari"
  /\ IncidentsList.passes "Ari" "" "" "" Samples.baringoRaid = true.
Proof.
  assert (H : JsString.containsIgnoringCase "MARIGAT" "Ari")
    by (exists "M", "ARI", "GAT"; split; reflexivity).
  split; [exact H|].
  exact (proj1 (extending_the_search_term_narrows
                  "Ari" "MARIGAT" "" "" "" [] H)
               Samples.baringoRaid eq_refl).
Defined.

(** X9.  The incidents list hands its status, priority and county
    filters to the query and applies them again itself.  Leaving out
    beforehand the records that fail one of the three changes nothing:
    the pipeline gives the same result, or the same exception, on the
    narrowed list as on the full one. *)
Theorem narrowing_beforehand_changes_nothing :
  forall (searchTerm statusFilter priorityFilter countyFilter : string)
         (f : string) (d : SortDirection) (incidents : list Incident),
    IncidentsList.filteredAndSortedIncidents
      searchTerm statusFilter priorityFilter countyFilter f d
      (filter (fun incident =>
                 IncidentsList.matchesStatus statusFilter incident
                 && IncidentsList.matchesPriority priorityFilter incident
                 && IncidentsList.matchesCounty countyFilter incident)
              incidents)
    = IncidentsList.filteredAndSortedIncidents
        searchTerm statusFilter priorityFilter countyFilter f d incidents.
Proof.
  intros t sf pf cf f d incidents.
  unfold IncidentsList.filteredAndSortedIncidents. f_equal.
  apply FilterAlgebra.filter_narrowed. intros x.
  unfold IncidentsList.passes. rewrite !andb_true_iff. tauto.
Qed.

(** X10.  The output of the incidents list is a fixed point of its
    pipeline: with the sort field a column of the table, running the
    pipeline again on its own output, in the same state, returns that
    output unchanged. *)
Theorem pipeline_output_is_a_fixed_point :
  forall (searchTerm statusFilter priorityFilter countyFilter : string)
         (f : string) (d : SortDirection) (incidents out : list Incident),
    In f IncidentsList.columns ->
    IncidentsList.filteredAndSortedIncidents
      searchTerm statusFilter priorityFilter countyFilter f d incidents
    = Ok out ->
    IncidentsList.filteredAndSortedIncidents
      searchTerm statusFilter priorityFilter countyFilter f d out
    = Ok out.
Proof.
  intros t sf pf cf f d incidents out Hcol.
  unfold IncidentsList.filteredAndSortedIncidents.
  set (p := IncidentsList.passes t sf pf cf).
  rewrite ColumnSort.sort_column by now apply ColumnSort.list_column_kind.
  intros H; injection H as <-.
  set (out := StableSort.sortBy (precedes f d) (filter p incidents)).
  assert (Hpass : filter p out = out).
  { apply FilterAlgebra.filter_all. intros x Hx.
    apply JsArrayFacts.sortBy_In in Hx. apply filter_In in Hx. tauto. }
  rewrite Hpass.
  rewrite ColumnSort.sort_column by now apply ColumnSort.list_column_kind.
  f_equal. apply JsArrayFacts.sortBy_in_order.
  apply ColumnSort.sortBy_precedes_sorted.
  now apply ColumnSort.list_column_kind.
Qed.

Lemma pipeline_output_is_a_fixed_point_witness :
  IncidentsList.filteredAndSortedIncidents "" "" "" "" "location" asc
    [Samples.turkanaRaid; Samples.baringoRaid]
  = Ok [Samples.turkanaRaid; Samples.baringoRaid].
Proof.
  apply (pipeline_output_is_a_fixed_point
           "" "" "" "" "location" asc
           [Samples.baringoRaid; Samples.turkanaRaid]
           [Samples.turkanaRaid; Samples.baringoRaid]).
  - simpl. auto.
  - reflexivity.
Defined.

(** X11.  The sort is stable for the rows.  When the sort keys of the
    records that pass the filter are all numbers or all strings, as they
    are for every column of the table and for the two computed totals,
    the pipeline returns, and the records that share a compared key
    stand in the output in the order in which they stood in the
    input. *)
Theorem rows_with_equal_keys_keep_their_order :
  forall (searchTerm statusFilter priorityFilter countyFilter : string)
         (f : string) (d : SortDirection) (incidents : list Incident),
    allNumbers f (filter (IncidentsList.passes searchTerm statusFilter
                            priorityFilter countyFilter) incidents)
    \/ allStrings f (filter (IncidentsList.passes searchTerm statusFilter
                               priorityFilter countyFilter) incidents) ->
    exists out,
      IncidentsList.filteredAndSortedIncidents
        searchTerm statusFilter priorityFilter countyFilter f d incidents
      = Ok out
      /\ forall k : value,
           filter (hasKey f k) out
           = filter (hasKey f k)
               (filter (IncidentsList.passes searchTerm statusFilter
                          priorityFilter countyFilter) incidents).
Proof.
  intros t sf pf cf f d incidents Hkind.
  unfold IncidentsList.filteredAndSortedIncidents.
  pose proof (ColumnSort.sort_column f d _ Hkind) as Hsort.
  eexists. split; [exact Hsort|]. intros k.
  apply (FilterAlgebra.sort_keeps_class (compareFn f d) (hasKey f k));
    [|exact Hsort].
  intros x y order. apply FilterAlgebra.compareFn_same_key.
Qed.

Lemma rows_with_equal_keys_keep_their_order_witness :
  exists out,
    IncidentsList.filteredAndSortedIncidents
      "" "" "" "" "incidentType" asc
      [Samples.turkanaRaid; Samples.baringoRaid;
       setReporter Samples.turkanaRaid None None]
    = Ok out
    /\ filter (hasKey "incidentType" (VString "cattle_raid")) out
       = [Samples.turkanaRaid; setReporter Samples.turkanaRaid None None].
Proof.
  destruct (rows_with_equal_keys_keep_their_order
              "" "" "" "" "incidentType" asc
              [Samples.turkanaRaid; Samples.baringoRaid;
               setReporter Samples.turkanaRaid None None])
    as [out [Hout Hkeys]].
  - right. intros a [<-|[<-|[<-|[]]]]; eexists; reflexivity.
  - exists out. split; [exact Hout|].
    rewrite (Hkeys (VString "cattle_raid")). reflexivity.
Defined.

(** X12.  Every row of the dashboard table is a row of the incidents
    list in the same sort state, with the same search term, status and
    priority and no county filter; with an empty search term the two
    outputs are the same list. *)
Theorem dashboard_rows_are_incidents_list_rows :
  forall (searchTerm statusFilter priorityFilter : string)
         (f : string) (d : SortDirection)
         (incidents outTable outList : list Incident),
    IncidentsTable.filteredAndSortedIncidents
      searchTerm statusFilter priorityFilter f d incidents = Ok outTable ->
    IncidentsList.filteredAndSortedIncidents
      searchTerm statusFilter priorityFilter "" f d incidents = Ok outList ->
    (forall x, In x outTable -> In x outList)
    /\ (List.length outTable <= List.length outList)%nat
    /\ (searchTerm = "" -> outTable = outList).
Proof.
  intros t sf pf f d incidents outT outL HT HL.
  pose proof (JsArrayFacts.sort_Permutation _ _ _ HT) as HpT.
  pose proof (JsArrayFacts.sort_Permutation _ _ _ HL) as HpL.
  split; [|split].
  - intros x Hx.
    apply (Permutation_in _ (Permutation_sym HpT)) in Hx.
    apply (Permutation_in _ HpL).
    apply filter_In in Hx as [Hin Hx]. apply filter_In. split; auto.
    now apply IncidentsTableFacts.passes_list.
  - rewrite <- (Permutation_length HpT), <- (Permutation_length HpL).
    apply ListFacts.filter_length_le. intros x _.
    apply IncidentsTableFacts.passes_list.
  - intros ->.
    unfold IncidentsTable.filteredAndSortedIncidents,
      IncidentsList.filteredAndSortedIncidents in HT, HL.
    rewrite (filter_ext (IncidentsTable.passes "" sf pf)
               (IncidentsList.passes "" sf pf "")) in HT.
    + congruence.
    + intros a. unfold IncidentsTable.passes, IncidentsList.passes,
        IncidentsList.matchesCounty. simpl. now rewrite andb_true_r.
Qed.

Lemma dashboard_rows_are_incidents_list_rows_witness :
  (List.length ([] : list Incident)
   <= List.length [Samples.baringoRaid])%nat.
Proof.
  exact (proj1 (proj2 (dashboard_rows_are_incidents_list_rows
                         "BZX" "" "" "incidentDate" desc
                         [Samples.turkanaRaid; Samples.baringoRaid]
                         [] [Samples.baringoRaid] eq_refl eq_refl))).
Defined.

(** X13.  Under the table of the incidents list: the note "No incidents
    found matching your criteria" stands exactly when no record of the
    input passes the filter; otherwise the rows are the output and the
    line reads "Showing n of m" with n the number of records that pass,
    m the number of records, and 0 < n <= m.  With all four filters
    empty, as after "Clear Filters", n is m. *)
Theorem table_body_counts_the_rows :
  forall (searchTerm statusFilter priorityFilter countyFilter : string)
         (f : string) (d : SortDirection) (incidents out : list Incident),
    IncidentsList.filteredAndSortedIncidents
      searchTerm statusFilter priorityFilter countyFilter f d incidents
    = Ok out ->
    (IncidentsList.tableBody incidents out = IncidentsList.NoIncidentsFound
     <-> forall incident,
           In incident incidents ->
           IncidentsList.passes searchTerm statusFilter priorityFilter
                                countyFilter incident = false)
    /\ (forall rows n m,
          IncidentsList.tableBody incidents out = IncidentsList.Rows rows n m ->
          rows = out
          /\ n = Z.of_nat
                   (List.length
                      (filter (IncidentsList.passes searchTerm statusFilter
                                 priorityFilter countyFilter) incidents))
          /\ m = Z.of_nat (List.length incidents)
          /\ 0 < n <= m
          /\ (searchTerm = "" -> statusFilter = "" -> priorityFilter = "" ->
              countyFilter = "" -> n = m)).
Proof.
  intros t sf pf cf f d incidents out H.
  pose proof (JsArrayFacts.sort_Permutation _ _ _ H) as Hp.
  pose proof (Permutation_length Hp) as Hlen.
  pose proof (ListFacts.filter_length (IncidentsList.passes t sf pf cf)
                incidents) as Hle.
  unfold IncidentsList.tableBody. split.
  - destruct (Z.eqb_spec (Z.of_nat (List.length out)) 0) as [Hz|Hnz].
    + split; [intros _|reflexivity].
      assert (Hnil : filter (IncidentsList.passes t sf pf cf) incidents = [])
        by (apply length_zero_iff_nil; lia).
      intros incident Hin.
      destruct (IncidentsList.passes t sf pf cf incident) eqn:Hpass;
        [|reflexivity].
      assert (Hf : In incident
                     (filter (IncidentsList.passes t sf pf cf) incidents))
        by (apply filter_In; auto).
      rewrite Hnil in Hf. contradiction.
    + split; [discriminate|]. intros Hnone. exfalso. apply Hnz.
      destruct out as [|x rest]; [reflexivity|].
      assert (Hx : In x (filter (IncidentsList.passes t sf pf cf) incidents))
        by (apply (Permutation_in _ (Permutation_sym Hp)); simpl; auto).
      apply filter_In in Hx as [Hin Hx]. rewrite (Hnone x Hin) in Hx.
      discriminate.
  - intros rows n m.
    destruct (Z.eqb_spec (Z.of_nat (List.length out)) 0) as [Hz|Hnz];
      [discriminate|].
    intros Hrows; injection Hrows as <- <- <-.
    repeat split; try lia.
    intros -> -> -> ->.
    rewrite <- Hlen.
    rewrite FilterAlgebra.filter_all; [reflexivity|].
    intros x _. reflexivity.
Qed.

Lemma table_body_counts_the_rows_witness :
  IncidentsList.tableBody [Samples.turkanaRaid; Samples.baringoRaid] []
  = IncidentsList.NoIncidentsFound.
Proof.
  apply (proj1 (table_body_counts_the_rows
                  "" "closed" "" "" "incidentDate" desc
                  [Samples.turkanaRaid; Samples.baringoRaid] [] eq_refl)).
  intros incident [<-|[<-|[]]]; reflexivity.
Defined.

(** ** The incident type as a title *)

Module FormatFacts.
Import JsString.

Ltac all_chars c :=
  destruct c as [[] [] [] [] [] [] [] []]; reflexivity.

Lemma isWordChar_upper (c : ascii) :
  isWordChar (upperWordChar c) = isWordChar c.
Proof. all_chars c. Qed.

Lemma upper_upper (c : ascii) :
  upperWordChar (upperWordChar c) = upperWordChar c.
Proof. all_chars c. Qed.

Lemma upper_not_lower (c : ascii) : isLowerLetter (upperWordChar c) = false.
Proof. all_chars c. Qed.

Lemma lower_upper (c : ascii) : lowerChar (upperWordChar c) = lowerChar c.
Proof. all_chars c. Qed.

Lemma upper_underscore (c : ascii) :
  (upperWordChar c =? "_")%char = (c =? "_")%char.
Proof. all_chars c. Qed.

Lemma replaced_underscore (c : ascii) :
  ((if (c =? "_")%char then " "%char else c) =? "_")%char = false.
Proof. all_chars c. Qed.

Lemma isWordChar_written (inWord : bool) (c : ascii) :
  isWordChar (written inWord c) = isWordChar c.
Proof.
  unfold written. destruct (isWordChar c && negb inWord); [|reflexivity].
  apply isWordChar_upper.
Qed.

Lemma written_written (inWord : bool) (c : ascii) :
  written inWord (written inWord c) = written inWord c.
Proof.
  unfold written at 1. rewrite isWordChar_written. unfold written.
  destruct (isWordChar c && negb inWord); [|reflexivity].
  apply upper_upper.
Qed.

Lemma lower_written (inWord : bool) (c : ascii) :
  lowerChar (written inWord c) = lowerChar c.
Proof.
  unfold written. destruct (isWordChar c && negb inWord); [|reflexivity].
  apply lower_upper.
Qed.

Lemma written_underscore (inWord : bool) (c : ascii) :
  (written inWord c =? "_")%char = (c =? "_")%char.
Proof.
  unfold written. destruct (isWordChar c && negb inWord); [|reflexivity].
  apply upper_underscore.
Qed.

Lemma capitalizeFrom_cons (inWord : bool) (c : ascii) (s : string) :
  capitalizeFrom inWord (String c s)
  = String (written inWord c) (capitalizeFrom (isWordChar c) s).
Proof. reflexivity. Qed.

Lemma capitalizeFrom_length (inWord : bool) (s : string) :
  String.length (capitalizeFrom inWord s) = String.length s.
Proof.
  revert inWord; induction s as [|c s IH]; intros inWord; simpl;
    [reflexivity | now rewrite IH].
Qed.

Lemma replaceUnderscores_length (s : string) :
  String.length (replaceUnderscores s) = String.length s.
Proof. induction s as [|c s IH]; simpl; congruence. Qed.

Lemma capitalizeFrom_idempotent (inWord : bool) (s : string) :
  capitalizeFrom inWord (capitalizeFrom inWord s) = capitalizeFrom inWord s.
Proof.
  revert inWord; induction s as [|c s IH]; intros inWord; [reflexivity|].
  rewrite !capitalizeFrom_cons.
  now rewrite written_written, isWordChar_written, IH.
Qed.

Lemma toLowerCase_capitalizeFrom (inWord : bool) (s : string) :
  toLowerCase (capitalizeFrom inWord s) = toLowerCase s.
Proof.
  revert inWord; induction s as [|c s IH]; intros inWord; [reflexivity|].
  rewrite capitalizeFrom_cons. cbn [toLowerCase].
  now rewrite lower_written, IH.
Qed.

Lemma noUnderscore_replaced (s : string) : noUnderscore (replaceUnderscores s).
Proof.
  induction s as [|c s IH]; intros x; simpl; [contradiction|].
  intros [<-|Hx]; [|now apply IH].
  intros H. pose proof (replaced_underscore c) as Hc.
  rewrite H in Hc. discriminate.
Qed.

Lemma noUnderscore_capitalizeFrom (inWord : bool) (s : string) :
  noUnderscore s -> noUnderscore (capitalizeFrom inWord s).
Proof.
  revert inWord; induction s as [|c s IH]; intros inWord Hs x;
    [contradiction|].
  rewrite capitalizeFrom_cons. simpl. intros [<-|Hx].
  - intros H. pose proof (written_underscore inWord c) as Hc.
    rewrite H in Hc. simpl in Hc. symmetry in Hc.
    apply Ascii.eqb_eq in Hc. apply (Hs c); simpl; auto.
  - apply (IH (isWordChar c)); [|exact Hx].
    intros y Hy. apply Hs. simpl; auto.
Qed.

Lemma replaceUnderscores_noUnderscore (s : string) :
  noUnderscore s -> replaceUnderscores s = s.
Proof.
  induction s as [|c s IH]; intros Hs; [reflexivity|]. simpl.
  destruct (Ascii.eqb_spec c "_") as [->|_].
  - exfalso. apply (Hs "_"%char); simpl; auto.
  - f_equal. apply IH. intros y Hy. apply Hs. simpl; auto.
Qed.

(** The start of a word in the output is never a lower-case letter. *)
Lemma capitalizeFrom_word_start (inWord : bool) (s : string) (i : nat)
    (c : ascii) :
  String.get i (capitalizeFrom inWord s) = Some c ->
  isWordChar c = true ->
  match i with
  | O => inWord = false
  | S j => exists b, String.get j (capitalizeFrom inWord s) = Some b
                     /\ isWordChar b = false
  end ->
  isLowerLetter c = false.
Proof.
  revert inWord i; induction s as [|c0 s IH]; intros inWord i;
    [destruct i; discriminate|].
  rewrite capitalizeFrom_cons. destruct i as [|j]; cbn [String.get].
  - intros H Hw ->. injection H as <-.
    rewrite isWordChar_written in Hw. unfold written.
    rewrite Hw. simpl. apply upper_not_lower.
  - intros H Hw [b [Hb Hnw]]. apply (IH (isWordChar c0) j); auto.
    destruct j as [|j']; cbn [String.get] in Hb.
    + injection Hb as <-. now rewrite isWordChar_written in Hnw.
    + now exists b.
Qed.

End FormatFacts.

(** X14.  [formatIncidentType] keeps the length of the type, leaves no
    underscore in it, and formatting a formatted type again changes
    nothing. *)
Theorem formatted_type_has_no_underscore :
  forall type : string,
    String.length (formatIncidentType type) = String.length type
    /\ (forall c, In c (list_ascii_of_string (formatIncidentType type)) ->
          c <> "_"%char)
    /\ formatIncidentType (formatIncidentType type) = formatIncidentType type.
Proof.
  intros type. unfold formatIncidentType, JsString.capitalizeWords.
  assert (Hno : noUnderscore
                  (JsString.capitalizeFrom false
                     (JsString.replaceUnderscores type)))
    by apply FormatFacts.noUnderscore_capitalizeFrom,
             FormatFacts.noUnderscore_replaced.
  split; [|split].
  - now rewrite FormatFacts.capitalizeFrom_length,
                FormatFacts.replaceUnderscores_length.
  - exact Hno.
  - rewrite (FormatFacts.replaceUnderscores_noUnderscore _ Hno).
    apply FormatFacts.capitalizeFrom_idempotent.
Qed.

(** X15.  In a formatted type every word starts in upper case: a letter,
    digit or underscore that stands first, or right after a unit that is
    none of these, is never a lower-case letter a-z. *)
Theorem formatted_type_words_are_capitalized :
  forall (type : string) (i : nat) (c : ascii),
    String.get i (formatIncidentType type) = Some c ->
    JsString.isWordChar c = true ->
    (i = O
     \/ exists b, String.get (pred i) (formatIncidentType type) = Some b
                  /\ JsString.isWordChar b = false) ->
    isLowerLetter c = false.
Proof.
  intros type i c Hc Hw Hstart.
  apply (FormatFacts.capitalizeFrom_word_start
           false (JsString.replaceUnderscores type) i c Hc Hw).
  destruct i as [|j]; [reflexivity|].
  destruct Hstart as [Hz|Hb]; [discriminate | exact Hb].
Qed.

Lemma formatted_type_words_are_capitalized_witness :
  formatIncidentType "cattle_raid" = "Cattle Raid"
  /\ isLowerLetter "R" = false.
Proof.
  split; [reflexivity|].
  apply (formatted_type_words_are_capitalized "cattle_raid" 7 "R").
  - reflexivity.
  - reflexivity.
  - right. exists " "%char. split; reflexivity.
Defined.

(** X16.  Formatting changes the letter case and the underscores only:
    in lower case, the formatted type is the type with its underscores
    turned into spaces. *)
Theorem formatted_type_keeps_the_letters :
  forall type : string,
    JsString.toLowerCase (formatIncidentType type)
    = JsString.toLowerCase (JsString.replaceUnderscores type).
Proof.
  intros type. apply FormatFacts.toLowerCase_capitalizeFrom.
Qed.

(** ** Badges and cells *)

(** X17.  Each of the four priorities has a badge colour of its own, and
    a string that is no priority gets the grey fallback, which no
    priority has.  Each of the five statuses has a colour of its own
    too, but the colour of "closed" is the fallback: a closed incident
    and an unknown status look the same. *)
Theorem badge_colours_tell_the_values_apart :
  (forall p q,
      getPriorityColor (priorityString p) = getPriorityColor (priorityString q)
      -> p = q)
  /\ (forall s,
        getPriorityColor s = "bg-gray-100 text-gray-800"
        <-> forall p, s <> priorityString p)
  /\ (forall s t,
        getStatusColor (statusString s) = getStatusColor (statusString t)
        -> s = t)
  /\ (forall s,
        getStatusColor s = "bg-gray-100 text-gray-800"
        <-> s = "closed" \/ forall t, s <> statusString t).
Proof.
  split; [|split; [|split]].
  - intros [] []; simpl; intros H; try reflexivity; discriminate.
  - intros s. unfold getPriorityColor. split.
    + intros H p Hp. subst s. destruct p; discriminate.
    + intros H.
      destruct (String.eqb_spec s "critical") as [->|_];
        [exfalso; now apply (H critical)|].
      destruct (String.eqb_spec s "high") as [->|_];
        [exfalso; now apply (H high)|].
      destruct (String.eqb_spec s "medium") as [->|_];
        [exfalso; now apply (H medium)|].
      destruct (String.eqb_spec s "low") as [->|_];
        [exfalso; now apply (H low)|].
      reflexivity.
  - intros [] []; simpl; intros H; try reflexivity; discriminate.
  - intros s. unfold getStatusColor. split.
    + intros H.
      destruct (String.eqb_spec s "closed") as [E|Hc]; [now left|].
      right. intros t Ht. rewrite Ht in H, Hc. destruct t; try discriminate.
      now apply Hc.
    + intros [->|H]; [reflexivity|].
      destruct (String.eqb_spec s "reported") as [->|_];
        [exfalso; now apply (H reported)|].
      destruct (String.eqb_spec s "verified") as [->|_];
        [exfalso; now apply (H verified)|].
      destruct (String.eqb_spec s "investigating") as [->|_];
        [exfalso; now apply (H investigating)|].
      destruct (String.eqb_spec s "resolved") as [->|_];
        [exfalso; now apply (H resolved)|].
      now destruct (s =? "closed")%string.
Qed.

(** X18.  The "Assigned To" cell accounts for every responding agency:
    it reads "Unassigned" exactly when there is none; otherwise it shows
    the first agencies in their order, two at most, and the number it
    adds past two is the number of agencies it does not show. *)
Theorem assigned_cell_accounts_for_every_agency :
  forall incident : Incident,
    match IncidentsList.assignedTo incident with
    | IncidentsList.Unassigned => respondingAgencies incident = []
    | IncidentsList.Assigned badges more =>
        respondingAgencies incident <> []
        /\ (exists hidden, respondingAgencies incident = badges ++ hidden
                           /\ Z.of_nat (List.length hidden)
                              = match more with Some n => n | None => 0 end)
        /\ (List.length badges <= 2)%nat
        /\ (more = None
            <-> (List.length (respondingAgencies incident) <= 2)%nat)
    end.
Proof.
  intros incident. unfold IncidentsList.assignedTo.
  set (agencies := respondingAgencies incident).
  destruct (Z.ltb_spec 0 (Z.of_nat (List.length agencies))) as [Hpos|Hzero].
  - split; [intros H; rewrite H in Hpos; simpl in Hpos; lia|].
    split; [|split].
    + exists (skipn 2 agencies). split; [now rewrite firstn_skipn|].
      rewrite length_skipn.
      destruct (Z.ltb_spec 2 (Z.of_nat (List.length agencies))); lia.
    + rewrite length_firstn. lia.
    + destruct (Z.ltb_spec 2 (Z.of_nat (List.length agencies)));
        split; intros; try discriminate; try reflexivity; lia.
  - apply length_zero_iff_nil. lia.
Qed.

(** X19.  The "Casualties" cell of the dashboard table, on a record
    whose eight counts are not negative: the cell is never empty; it
    reads "None" exactly when every count is 0, and then it shows nothing
    else; a total that it shows is the sum of its counts and is above
    0. *)
Theorem casualties_cell_is_never_empty :
  forall incident : Incident,
    0 <= deaths (casualties incident) ->
    0 <= injuries (casualties incident) ->
    0 <= missing (casualties incident) ->
    0 <= cattle (livestockStolen incident) ->
    0 <= goats (livestockStolen incident) ->
    0 <= sheep (livestockStolen incident) ->
    0 <= camels (livestockStolen incident) ->
    0 <= other (livestockStolen incident) ->
    IncidentsTable.casualtiesCell incident <> []
    /\ (In IncidentsTable.NoneAtAll (IncidentsTable.casualtiesCell incident)
        <-> deaths (casualties incident) = 0
            /\ injuries (casualties incident) = 0
            /\ missing (casualties incident) = 0
            /\ cattle (livestockStolen incident) = 0
            /\ goats (livestockStolen incident) = 0
            /\ sheep (livestockStolen incident) = 0
            /\ camels (livestockStolen incident) = 0
            /\ other (livestockStolen incident) = 0)
    /\ (In IncidentsTable.NoneAtAll (IncidentsTable.casualtiesCell incident)
        -> IncidentsTable.casualtiesCell incident
           = [IncidentsTable.NoneAtAll])
    /\ (forall n,
          In (IncidentsTable.People n) (IncidentsTable.casualtiesCell incident)
          -> n = deaths (casualties incident)
                 + injuries (casualties incident)
                 + missing (casualties incident)
             /\ 0 < n).
Proof.
  intros incident Hd Hi Hm Hc Hg Hs Hca Ho.
  unfold IncidentsTable.casualtiesCell, totalCasualties, totalLivestock.
  set (tc := deaths (casualties incident) + injuries (casualties incident)
             + missing (casualties incident)).
  set (tl := cattle (livestockStolen incident)
             + goats (livestockStolen incident)
             + sheep (livestockStolen incident)
             + camels (livestockStolen incident)
             + other (livestockStolen incident)).
  destruct (Z.ltb_spec 0 tc) as [Htc|Htc], (Z.ltb_spec 0 tl) as [Htl|Htl],
    (Z.eqb_spec tc 0) as [Hz|Hz], (Z.eqb_spec tl 0) as [Hz'|Hz'];
    simpl; try lia;
    (split; [discriminate|]); (split; [|split]);
    try (split; [intros H; intuition discriminate | intros H; lia]);
    try (intros H; intuition discriminate);
    try (intros n H; intuition (try discriminate));
    try (split; [intros _; lia | auto]);
    try match goal with
        | H : IncidentsTable.People _ = IncidentsTable.People _ |- _ =>
            injection H as <-; lia
        end;
    try reflexivity.
Qed.

Lemma casualties_cell_is_never_empty_witness :
  IncidentsTable.casualtiesCell Samples.baringoRaid <> [].
Proof.
  apply (casualties_cell_is_never_empty Samples.baringoRaid);
    simpl; lia.
Defined.

(** ** The response block and the chart *)

Module PageFacts.

(** [Math.round] of a number of milliseconds over the milliseconds of
    an hour, as a division of integers. *)
Lemma round_hours (n : Z) :
  JsMath.round (inject_Z n / inject_Z (1000 * 60 * 60))%Q
  = (n + 1800000) / 3600000.
Proof.
  unfold JsMath.round.
  transitivity (Qfloor ((n + 1800000) # 3600000)); [|reflexivity].
  apply Qfloor_comp.
  unfold Qeq, Qplus, Qdiv, Qmult, Qinv, inject_Z.
  change (1000 * 60 * 60) with 3600000. cbv [Qnum Qden]. lia.
Qed.

(** [Math.floor] of a number of quarters. *)
Lemma floor_quarters (m k : Z) (q : positive) :
  JsMath.floor (inject_Z m * (k # q))%Q = (m * k) / Z.pos q.
Proof.
  unfold JsMath.floor, Qfloor, Qmult, inject_Z. cbn [Qnum Qden].
  reflexivity.
Qed.

(** The sum of a [reduce] from any start. *)
Lemma reduce_from (f : TrendsChart.TrendPoint -> Z)
    (data : list TrendsChart.TrendPoint) (start : Z) :
  fold_left (fun sum d => sum + f d) data start
  = start + fold_left (fun sum d => sum + f d) data 0.
Proof.
  revert start; induction data as [|d rest IH]; intros start; simpl.
  - lia.
  - rewrite IH. rewrite (IH (f d)). lia.
Qed.

(** With counts between 0 and [m], a total lies between each count and
    [m] times the number of points. *)
Lemma reduce_bounds (f : TrendsChart.TrendPoint -> Z)
    (data : list TrendsChart.TrendPoint) (m : Z) :
  (forall p, In p data -> 0 <= f p <= m) ->
  0 <= fold_left (fun sum d => sum + f d) data 0
       <= m * Z.of_nat (List.length data)
  /\ forall p, In p data ->
       f p <= fold_left (fun sum d => sum + f d) data 0.
Proof.
  induction data as [|d rest IH]; intros H.
  - simpl. split; [lia | contradiction].
  - destruct IH as [IH1 IH2]; [intros p Hp; apply H; now right|].
    pose proof (H d (or_introl eq_refl)) as Hd.
    cbn [fold_left]. rewrite reduce_from.
    rewrite length_cons, Nat2Z.inj_succ.
    split; [nia|].
    intros p [<-|Hp]; [lia|]. specialize (IH2 p Hp). lia.
Qed.

(** The height of a bar, whatever the sign of the scale and of the
    count: a number, 0 unless the scale is above 0. *)
Lemma barHeight_number (m v : Z) :
  exists h : Q,
    TrendsChart.barHeight (Some m) v = Some h
    /\ (m <= 0 -> h = 0%Q)
    /\ (0 < m ->
        h = (inject_Z v / inject_Z m
             * inject_Z (TrendsChart.chartHeight - 32))%Q).
Proof.
  unfold TrendsChart.barHeight, TrendsChart.divide.
  destruct (Z.ltb_spec 0 m) as [Hpos|Hneg].
  - destruct (Z.eqb_spec m 0) as [->|_]; [lia|].
    eexists. split; [reflexivity|]. split; [lia | reflexivity].
  - exists 0%Q. split; [reflexivity|]. split; [reflexivity | lia].
Qed.

(** A count equal to a scale above 0 has the full height. *)
Lemma full_height (m : Z) :
  0 < m ->
  (inject_Z m / inject_Z m * inject_Z (TrendsChart.chartHeight - 32)
   == inject_Z 168)%Q.
Proof.
  intros Hm. change (TrendsChart.chartHeight - 32) with 168.
  assert (Hq : ~ (inject_Z m == 0)%Q) by (unfold Qeq; simpl; lia).
  unfold Qdiv. rewrite Qmult_inv_r by exact Hq. apply Qmult_1_l.
Qed.

End PageFacts.

(** X20.  The details window shows the "Response Information" block
    exactly when the record has a responding agency, a non-empty text of
    actions taken or a response time other than 0.  A response time of 0
    leaves a bare 0 on the page, with or without the block, and nothing
    else does. *)
Theorem response_time_of_zero_leaves_a_bare_zero :
  forall incident : Incident,
    ((exists children,
         IncidentsList.responseInformation incident
         = IncidentsList.ResponseBlock children)
     <-> respondingAgencies incident <> []
         \/ (exists s, actionsTaken incident = Some s /\ s <> "")
         \/ (exists n, responseTime incident = Some n /\ n <> 0))
    /\ (In IncidentsList.BareZero
           (itemsOf (IncidentsList.responseInformation incident))
        <-> responseTime incident = Some 0).
Proof.
  intros incident. unfold IncidentsList.responseInformation.
  destruct (respondingAgencies incident) as [|agency others];
    destruct (actionsTaken incident) as [[|c text]|];
    destruct (responseTime incident) as [n|];
    try destruct (Z.eqb_spec n 0) as [->|Hn];
    cbn [List.length Z.of_nat Z.ltb Z.compare orb
         IncidentsList.truthyString IncidentsList.truthyNumber
         IncidentsList.numberAnd IncidentsList.stringAnd itemsOf app
         Z.eqb negb];
    try (destruct (Z.eqb_spec n 0) as [|_]; [contradiction|]);
    cbn [negb orb itemsOf app In];
    (split; [split|split]);
    try (intros _; eexists; reflexivity);
    try (intros [children H]; discriminate H);
    try (intros _; left; discriminate);
    try (intros _; right; left; eexists; split;
         [reflexivity | discriminate]);
    try (intros _; right; right; eexists; split;
         [reflexivity | assumption]);
    try (intros [H|[[s [H H']]|[k [H H']]]]; congruence);
    try (intros H; intuition congruence);
    try (intros _; now left).
Qed.

(** X21.  A response time other than 0 is shown in whole hours, and the
    hours shown are the nearest to the time: the time is less than half
    an hour above them and at most half an hour below. *)
Theorem response_time_is_shown_to_the_nearest_hour :
  forall (incident : Incident) (n : Z),
    responseTime incident = Some n ->
    n <> 0 ->
    forall hours,
      In (IncidentsList.ResponseTime hours)
         (itemsOf (IncidentsList.responseInformation incident))
      <-> 3600000 * hours - 1800000 <= n < 3600000 * hours + 1800000.
Proof.
  intros incident n Hn Hz hours.
  unfold IncidentsList.responseInformation. rewrite Hn.
  cbn [IncidentsList.truthyNumber IncidentsList.numberAnd].
  destruct (Z.eqb_spec n 0) as [|_]; [contradiction|].
  cbn [negb]. rewrite orb_true_r. cbn [itemsOf].
  rewrite PageFacts.round_hours. rewrite !in_app_iff.
  assert (Hh : hours = (n + 1800000) / 3600000
               <-> 3600000 * hours - 1800000 <= n
                   < 3600000 * hours + 1800000).
  { split; intros H.
    - subst hours. pose proof (Z.div_mod (n + 1800000) 3600000).
      pose proof (Z.mod_pos_bound (n + 1800000) 3600000). lia.
    - apply (Z.div_unique _ _ _ (n + 1800000 - 3600000 * hours)); lia. }
  rewrite <- Hh. split.
  - intros [H|[H|H]].
    + destruct (0 <? _); [destruct H as [H|[]]; discriminate | destruct H].
    + destruct H as [H|[]]. now injection H as <-.
    + destruct (actionsTaken incident) as [[|c text]|]; simpl in H;
        try contradiction.
      destruct H as [H|[]]; discriminate.
  - intros ->. right. left. now left.
Qed.

Lemma response_time_is_shown_to_the_nearest_hour_witness :
  In (IncidentsList.ResponseTime 2)
     (itemsOf (IncidentsList.responseInformation
                 (Samples.turkanaRaid))).
Proof.
  apply (response_time_is_shown_to_the_nearest_hour
           Samples.turkanaRaid 7200000 eq_refl).
  - discriminate.
  - lia.
Defined.

(** X22.  The five labels of the vertical axis, for a scale that is not
    negative: they never increase from top to bottom, from the scale
    down to 0, and they are five different numbers exactly when the
    scale is 4 or more; below that, a label is shown twice. *)
Theorem axis_labels_descend :
  forall m : Z,
    0 <= m ->
    StronglySorted Z.ge (TrendsChart.yAxisLabels m)
    /\ (NoDup (TrendsChart.yAxisLabels m) <-> 4 <= m).
Proof.
  intros m Hm. unfold TrendsChart.yAxisLabels.
  rewrite !PageFacts.floor_quarters.
  pose proof (Z.div_mod (m * 3) 4) as E3.
  pose proof (Z.mod_pos_bound (m * 3) 4) as B3.
  pose proof (Z.div_mod (m * 1) 2) as E2.
  pose proof (Z.mod_pos_bound (m * 1) 2) as B2.
  pose proof (Z.div_mod (m * 1) 4) as E1.
  pose proof (Z.mod_pos_bound (m * 1) 4) as B1.
  set (a := m * 3 / 4) in *. set (b := m * 1 / 2) in *.
  set (c := m * 1 / 4) in *.
  split.
  - repeat constructor; lia.
  - split.
    + intros H. repeat match goal with
                       | H : NoDup (_ :: _) |- _ =>
                           apply NoDup_cons_iff in H as [? H]
                       end.
      cbn [In] in *. lia.
    + intros H. repeat (apply NoDup_cons_iff; split);
        cbn [In]; try lia; constructor.
Qed.

Lemma axis_labels_descend_witness :
  NoDup (TrendsChart.yAxisLabels 10).
Proof.
  apply (axis_labels_descend 10); lia.
Defined.

(** X23.  The chart of a non-empty sequence, whatever the sign of the
    counts: every height is a number, none the outcome of a division by
    zero; where no count is above 0 every bar has the height 0; else a
    bar of the chart has the full height, 168. *)
Theorem tallest_bar_fills_the_chart :
  forall data : list TrendsChart.TrendPoint,
    data <> [] ->
    exists m bars,
      TrendsChart.TrendsChart data = TrendsChart.Chart (Some m) bars
      /\ (forall b, In b bars ->
            TrendsChart.incidentHeight b <> None
            /\ TrendsChart.criticalHeight b <> None
            /\ TrendsChart.resolvedHeight b <> None)
      /\ (m <= 0 ->
          forall b, In b bars ->
            TrendsChart.incidentHeight b = Some 0%Q
            /\ TrendsChart.criticalHeight b = Some 0%Q
            /\ TrendsChart.resolvedHeight b = Some 0%Q)
      /\ (0 < m ->
          exists b h,
            In b bars
            /\ (TrendsChart.incidentHeight b = Some h
                \/ TrendsChart.criticalHeight b = Some h
                \/ TrendsChart.resolvedHeight b = Some h)
            /\ (h == inject_Z 168)%Q).
Proof.
  intros data Hne.
  destruct (TrendsChartFacts.maxValue_is_maximum data Hne)
    as [m [Hm [_ [p0 [Hp0 Hat]]]]].
  exists m. eexists. split.
  { destruct data; [congruence|]. unfold TrendsChart.TrendsChart.
    rewrite Hm. reflexivity. }
  split; [|split].
  - intros b Hb. apply in_map_iff in Hb as [p [<- _]].
    cbn [TrendsChart.incidentHeight TrendsChart.criticalHeight
         TrendsChart.resolvedHeight].
    destruct (PageFacts.barHeight_number m (TrendsChart.incidents p))
      as [h1 [-> _]].
    destruct (PageFacts.barHeight_number m (TrendsChart.critical p))
      as [h2 [-> _]].
    destruct (PageFacts.barHeight_number m (TrendsChart.resolved p))
      as [h3 [-> _]].
    repeat split; discriminate.
  - intros Hneg b Hb. apply in_map_iff in Hb as [p [<- _]].
    cbn [TrendsChart.incidentHeight TrendsChart.criticalHeight
         TrendsChart.resolvedHeight].
    destruct (PageFacts.barHeight_number m (TrendsChart.incidents p))
      as [h1 [E1 [Z1 _]]].
    rewrite E1, (Z1 Hneg).
    destruct (PageFacts.barHeight_number m (TrendsChart.critical p))
      as [h2 [E2 [Z2 _]]].
    rewrite E2, (Z2 Hneg).
    destruct (PageFacts.barHeight_number m (TrendsChart.resolved p))
      as [h3 [E3 [Z3 _]]].
    rewrite E3, (Z3 Hneg).
    repeat split.
  - intros Hpos.
    destruct (PageFacts.barHeight_number m m) as [h [Hh [_ Hfull]]].
    specialize (Hfull Hpos).
    eexists. exists h. split; [apply in_map; exact Hp0|].
    cbn [TrendsChart.incidentHeight TrendsChart.criticalHeight
         TrendsChart.resolvedHeight]. split.
    + destruct Hat as [<-|[<-|<-]]; auto.
    + rewrite Hfull. now apply PageFacts.full_height.
Qed.

Lemma tallest_bar_fills_the_chart_witness :
  exists m bars,
    TrendsChart.TrendsChart
      [ {| TrendsChart.date := "2024-03-01"; TrendsChart.incidents := 4;
           TrendsChart.critical := 1; TrendsChart.resolved := 0 |};
        {| TrendsChart.date := "2024-03-02"; TrendsChart.incidents := 2;
           TrendsChart.critical := 0; TrendsChart.resolved := 6 |} ]
    = TrendsChart.Chart (Some m) bars.
Proof.
  destruct (tallest_bar_fills_the_chart
              [ {| TrendsChart.date := "2024-03-01";
                   TrendsChart.incidents := 4;
                   TrendsChart.critical := 1; TrendsChart.resolved := 0 |};
                {| TrendsChart.date := "2024-03-02";
                   TrendsChart.incidents := 2;
                   TrendsChart.critical := 0; TrendsChart.resolved := 6 |} ])
    as [m [bars [H _]]].
  - discriminate.
  - exists m, bars. exact H.
Defined.

(** X24.  The three totals under the chart, for counts that are not
    negative: no total is negative, every count is at most its total,
    and the scale of the chart is at most the three totals together,
    which are at most three times the scale for each point.  So the
    totals are all 0 exactly when the scale is 0, that is when every bar
    has the height 0. *)
Theorem totals_and_scale_agree :
  forall (data : list TrendsChart.TrendPoint) (m : Z),
    (forall p, In p data ->
       0 <= TrendsChart.incidents p /\ 0 <= TrendsChart.critical p
       /\ 0 <= TrendsChart.resolved p) ->
    TrendsChart.maxValue data = Some m ->
    (forall p, In p data ->
       TrendsChart.incidents p <= TrendsChart.totalIncidents data
       /\ TrendsChart.critical p <= TrendsChart.totalCritical data
       /\ TrendsChart.resolved p <= TrendsChart.totalResolved data)
    /\ 0 <= TrendsChart.totalIncidents data
    /\ 0 <= TrendsChart.totalCritical data
    /\ 0 <= TrendsChart.totalResolved data
    /\ m <= TrendsChart.totalIncidents data
            + TrendsChart.totalCritical data
            + TrendsChart.totalResolved data
         <= 3 * m * Z.of_nat (List.length data)
    /\ (TrendsChart.totalIncidents data = 0
        /\ TrendsChart.totalCritical data = 0
        /\ TrendsChart.totalResolved data = 0
        <-> m = 0).
Proof.
  intros data m Hpos Hm.
  assert (Hne : data <> []) by (intros ->; discriminate Hm).
  destruct (TrendsChartFacts.maxValue_is_maximum data Hne)
    as [m' [Hm' [Hub [p0 [Hp0 Hat]]]]].
  rewrite Hm in Hm'. injection Hm' as <-.
  destruct (PageFacts.reduce_bounds TrendsChart.incidents data m)
    as [Hi Hi']; [intros p Hp; specialize (Hpos p Hp);
                  specialize (Hub p Hp); lia|].
  destruct (PageFacts.reduce_bounds TrendsChart.critical data m)
    as [Hc Hc']; [intros p Hp; specialize (Hpos p Hp);
                  specialize (Hub p Hp); lia|].
  destruct (PageFacts.reduce_bounds TrendsChart.resolved data m)
    as [Hr Hr']; [intros p Hp; specialize (Hpos p Hp);
                  specialize (Hub p Hp); lia|].
  fold (TrendsChart.totalIncidents data) in Hi, Hi'.
  fold (TrendsChart.totalCritical data) in Hc, Hc'.
  fold (TrendsChart.totalResolved data) in Hr, Hr'.
  pose proof (Hi' p0 Hp0) as Hi0. pose proof (Hc' p0 Hp0) as Hc0.
  pose proof (Hr' p0 Hp0) as Hr0. pose proof (Hpos p0 Hp0) as Hpos0.
  assert (Hlen : 0 < Z.of_nat (List.length data)).
  { destruct data; [congruence|]. rewrite length_cons. lia. }
  split; [intros p Hp; auto|].
  repeat split; try lia; try nia.
Qed.

Lemma totals_and_scale_agree_witness :
  TrendsChart.totalIncidents
    [ {| TrendsChart.date := "2024-03-01"; TrendsChart.incidents := 4;
         TrendsChart.critical := 1; TrendsChart.resolved := 0 |};
      {| TrendsChart.date := "2024-03-02"; TrendsChart.incidents := 2;
         TrendsChart.critical := 0; TrendsChart.resolved := 6 |} ]
  >= 0.
Proof.
  apply Z.le_ge.
  apply (totals_and_scale_agree
           [ {| TrendsChart.date := "2024-03-01";
                TrendsChart.incidents := 4;
                TrendsChart.critical := 1; TrendsChart.resolved := 0 |};
             {| TrendsChart.date := "2024-03-02";
                TrendsChart.incidents := 2;
                TrendsChart.critical := 0; TrendsChart.resolved := 6 |} ]
           6).
  - intros p [<-|[<-|[]]]; simpl; lia.
  - reflexivity.
Defined.
